(** * gh-claude-tools: diff truncation, authentication resolution and the
      push-and-PR orchestrator

    A shallow embedding of [src/lib/helpers.ts] and [src/bin/ghp.ts].

    - JavaScript strings are [string]s, one character per code unit, so the
      strings of the model are those whose code units are below 256; the
      [length] of a string and every index are numbers, modelled in [Z].
      The console texts of the sources hold a few characters beyond that
      range; they are written as they stand in the sources, and no
      definition measures, trims or splits a console text.
    - Asynchronous, effectful functions are programs of a small free monad
      [prog]: every call that leaves the process (environment lookup, child
      process, file system, terminal, console, clock) is an event, answered by
      a [World].  Running a program yields an outcome (a value, a thrown error
      or [process.exit]), the trace of the answered events and the final
      world.
    - A question at the terminal is answered with the line of the world.
      The run of a program whose terminal is at end of input, where
      [rl.question] never calls back and the program never settles, is
      [Outcomes.runClosed]: it stops at the first question.
    - [chalk] only colours text and is the identity here. *)

From Stdlib Require Import ZArith Lia Ascii DecimalString.
From stdpp Require Import base strings list gmap.

Local Open Scope Z_scope.

(** ** JavaScript built-ins used by the sources *)

Module JS.

(** The one-character string ['\n']. *)
Definition nl : string := String "010"%char EmptyString.

(** The one-character string of a double quote. *)
Definition dq : string := String "034"%char EmptyString.

(** [`"${s}"`] *)
Definition quoted (s : string) : string := dq +:+ s +:+ dq.

(** [s.length] *)
Definition length (s : string) : Z := Z.of_nat (String.length s).

(** [a.length] for an array *)
Definition alength {A} (l : list A) : Z := Z.of_nat (List.length l).

(** Truthiness of a string: every string but [''] is truthy. *)
Definition truthy (s : string) : bool :=
  match s with EmptyString => false | String _ _ => true end.

(** Truthiness of [string | null | undefined]. *)
Definition truthy_opt (o : option string) : bool :=
  match o with None => false | Some s => truthy s end.

(** A value that need not be a string: what a field of the result of
    [JSON.parse] holds.  The sources test such a value for truthiness and
    pass it on as it is; a value of another type than string (a number, a
    boolean, [null], an array, an object) is kept as its truthiness and its
    text. *)
Inductive Value : Type :=
| VString (s : string)
| VOther (truthy_ : bool) (text : string).

(** Truthiness of a value. *)
Definition truthyValue (v : Value) : bool :=
  match v with
  | VString s => truthy s
  | VOther b _ => b
  end.

(** Truthiness of a value, [null] or [undefined]. *)
Definition truthyKey (o : option Value) : bool :=
  match o with None => false | Some v => truthyValue v end.

(** [s.startsWith(p)] *)
Definition startsWith (s p : string) : bool := String.prefix p s.

(** [s.endsWith(t)] *)
Definition endsWith (s t : string) : bool :=
  (String.length t <=? String.length s)%nat
  && String.eqb
       (String.substring (String.length s - String.length t)
          (String.length t) s) t.

(** No ['\n'] in the string. *)
Fixpoint noNl (s : string) : bool :=
  match s with
  | EmptyString => true
  | String c rest => negb (Ascii.eqb c "010") && noNl rest
  end.

(** [s.split(sep)] for a one-character separator: never the empty array. *)
Fixpoint split (s : string) (sep : ascii) : list string :=
  match s with
  | EmptyString => [EmptyString]
  | String c rest =>
      if Ascii.eqb c sep then EmptyString :: split rest sep
      else match split rest sep with
           | [] => [String c EmptyString]
           | line :: lines => String c line :: lines
           end
  end.

(** [a.join(sep)] *)
Fixpoint join (l : list string) (sep : string) : string :=
  match l with
  | [] => EmptyString
  | x :: rest =>
      match rest with
      | [] => x
      | _ :: _ => x +:+ sep +:+ join rest sep
      end
  end.

(** Clamp an index argument into [0 .. len]. *)
Definition clamp (len i : Z) : Z := Z.max 0 (Z.min i len).

(** [s.substring(start, end)]: both arguments are clamped into the string
    and swapped when out of order. *)
Definition substring (s : string) (start end_ : Z) : string :=
  let a := clamp (length s) start in
  let b := clamp (length s) end_ in
  let lo := Z.min a b in
  let hi := Z.max a b in
  String.substring (Z.to_nat lo) (Z.to_nat (hi - lo)) s.

(** A relative index of [slice]: negative counts from the end. *)
Definition rel (len i : Z) : Z :=
  if i <? 0 then Z.max (len + i) 0 else Z.min i len.

(** [a.slice(start, end)] *)
Definition slice {A} (l : list A) (start end_ : Z) : list A :=
  let k := rel (alength l) start in
  let e := rel (alength l) end_ in
  take (Z.to_nat (e - k)) (drop (Z.to_nat k) l).

(** [a.slice(start)] *)
Definition slice_from {A} (l : list A) (start : Z) : list A :=
  slice l start (alength l).

(** White space removed by [trim], among the code units below 256. *)
Definition is_white (c : ascii) : bool :=
  match c with
  | "009" | "010" | "011" | "012" | "013" | " " | "160" => true
  | _ => false
  end%char.

Fixpoint trimStart (s : string) : string :=
  match s with
  | EmptyString => EmptyString
  | String c rest => if is_white c then trimStart rest else s
  end.

Fixpoint trimEnd (s : string) : string :=
  match s with
  | EmptyString => EmptyString
  | String c rest =>
      match trimEnd rest with
      | EmptyString => if is_white c then EmptyString else String c EmptyString
      | String d t => String c (String d t)
      end
  end.

(** [s.trim()] *)
Definition trim (s : string) : string := trimEnd (trimStart s).

(** A number in a template literal: its decimal digits. *)
Definition show (n : Z) : string := NilZero.string_of_int (Z.to_int n).

(** [s.replace(/"/g, '\\"')] *)
Fixpoint escapeQuotes (s : string) : string :=
  match s with
  | EmptyString => EmptyString
  | String c rest =>
      if Ascii.eqb c "034"%char
      then String "\"%char (String "034"%char (escapeQuotes rest))
      else String c (escapeQuotes rest)
  end.

(** ['x'.repeat(n)] for a one-character string: used to build inputs. *)
Definition fill (c : ascii) (n : Z) : string :=
  Nat.iter (Z.to_nat n) (String c) EmptyString.

End JS.

(** ** Diff truncation ([limitDiffForCommit], [limitDiffForPR]) *)

Module Diff.

(** The marker appended by the commit policy's hard truncation. *)
Definition commitMarker : string :=
  JS.nl +:+ JS.nl +:+ "[diff truncated due to size]".

(** The marker appended by the PR policy. *)
Definition prMarker : string :=
  JS.nl +:+ JS.nl +:+ "[Diff truncated - PR contains additional changes]".

(** The predicate of [fileHeaders] in [limitDiffForCommit]. *)
Definition isCommitHeader (line : string) : bool :=
  JS.startsWith line "diff --git" || JS.startsWith line "+++"
  || JS.startsWith line "---".

(** The predicate of [changeLines]. *)
Definition isChange (line : string) : bool :=
  JS.startsWith line "+" || JS.startsWith line "-".

(** The structured candidate of [limitDiffForCommit]: [limitedDiff]. *)
Definition commitLimitedLines (diff : string) : list string :=
  let lines := JS.split diff "010" in
  let fileHeaders := List.filter isCommitHeader lines in
  let changeLines := List.filter isChange lines in
  fileHeaders ++ JS.slice changeLines 0 200.

Definition commitLimitedDiff (diff : string) : string :=
  JS.join (commitLimitedLines diff) JS.nl.

Definition limitDiffForCommit (diff : string) : string :=
  let maxChars := 15000 in
  if JS.length diff <=? maxChars then diff
  else
    let limitedDiff := commitLimitedDiff diff in
    if JS.length limitedDiff <=? maxChars then limitedDiff
    else JS.substring diff 0 maxChars +:+ commitMarker.

(** The predicate of [fileHeaders] in [limitDiffForPR]. *)
Definition isPRHeader (line : string) : bool :=
  JS.startsWith line "diff --git" || JS.startsWith line "+++"
  || JS.startsWith line "---" || JS.startsWith line "index ".

(** [changesByFile]: an object used as a map from header line to sampled
    lines.  Its keys are enumerated in insertion order, so it is an
    association list; assigning to a present key keeps the key's place. *)
Definition bucket : Type := list (string * list string).

Fixpoint get (o : bucket) (k : string) : option (list string) :=
  match o with
  | [] => None
  | (k', v) :: rest => if String.eqb k' k then Some v else get rest k
  end.

Fixpoint set (o : bucket) (k : string) (v : list string) : bucket :=
  match o with
  | [] => [(k, v)]
  | (k', v') :: rest =>
      if String.eqb k' k then (k', v) :: rest else (k', v') :: set rest k v
  end.

(** One iteration of [for (const line of lines)]; the state is
    [(changesByFile, currentFile)]. *)
Definition bucketStep (st : bucket * string) (line : string)
  : bucket * string :=
  let '(changesByFile, currentFile) := st in
  if JS.startsWith line "diff --git" then (set changesByFile line [], line)
  else if JS.truthy currentFile && isChange line then
    let changesByFile :=
      match get changesByFile currentFile with
      | None => set changesByFile currentFile []
      | Some _ => changesByFile
      end in
    match get changesByFile currentFile with
    | Some changes =>
        if JS.alength changes <? 20
        then (set changesByFile currentFile (changes ++ [line]), currentFile)
        else (changesByFile, currentFile)
    | None => (changesByFile, currentFile)
    end
  else st.

Definition bucketLines (lines : list string) : bucket :=
  fst (fold_left bucketStep lines ([], EmptyString)).

(** [fileHeaders.join('\n') + '\n\n']: the start of [limitedDiff]. *)
Definition prHeaderBlock (diff : string) : string :=
  JS.join (List.filter isPRHeader (JS.split diff "010")) JS.nl
  +:+ JS.nl +:+ JS.nl.

Definition prSection (file : string) (changes : list string) : string :=
  JS.nl +:+ file +:+ JS.nl +:+ JS.join changes JS.nl +:+ JS.nl.

(** [for (const [file, changes] of Object.entries(changesByFile))], with
    its [break]; the state is [(limitedDiff, currentLength)]. *)
Fixpoint appendSections (entries : bucket) (limitedDiff : string)
    (currentLength maxChars : Z) : string :=
  match entries with
  | [] => limitedDiff
  | (file, changes) :: rest =>
      let section := prSection file changes in
      if currentLength + JS.length section >? maxChars then limitedDiff
      else appendSections rest (limitedDiff +:+ section)
             (currentLength + JS.length section) maxChars
  end.

(** [limitedDiff] after the loop over the sections. *)
Definition prLimitedDiff (diff : string) : string :=
  let maxChars := 30000 in
  let limitedDiff := prHeaderBlock diff in
  let currentLength := JS.length limitedDiff in
  appendSections (bucketLines (JS.split diff "010")) limitedDiff
    currentLength maxChars.

(** [limitDiffForPR], with the lines it writes to the console. *)
Definition limitDiffForPR_w (diff : string) : list string * string :=
  let maxChars := 30000 in
  if JS.length diff <=? maxChars then ([], diff)
  else
    let tooLarge := "📝 Diff too large (" +:+ JS.show (JS.length diff)
                    +:+ " chars), truncating to " +:+ JS.show maxChars
                    +:+ " chars" in
    if JS.length diff >? 100000 then
      ([tooLarge; "🔪 Using simple truncation for very large diff"],
       JS.substring diff 0 maxChars +:+ prMarker)
    else
      let limitedDiff := prLimitedDiff diff in
      ([tooLarge;
        "✂️ Truncated diff to " +:+ JS.show (JS.length limitedDiff)
        +:+ " chars"],
       limitedDiff +:+ prMarker).

Definition limitDiffForPR (diff : string) : string :=
  snd (limitDiffForPR_w diff).

End Diff.

(** ** The process and its environment *)

Module Sys.

(** A thrown value.  Every error of these sources is an [Error]; the errors
    of [execa] carry [timedOut] and [exitCode] as well ([undefined] on a
    plain [Error]: [false] and [None] here). *)
Record JsError : Type := {
  message : string;
  timedOut : bool;
  exitCode : option Z
}.

(** [new Error(msg)] *)
Definition Error (msg : string) : JsError :=
  {| message := msg; timedOut := false; exitCode := None |}.

Inductive Stdio : Type := inherit | pipe.

(** [ExecOptions] of [types.ts]; an absent field is [None].  [env] lists
    the variables set on top of [process.env], with the values the sources
    put there. *)
Record ExecOptions : Type := {
  throwOnError : option bool;
  shell : option bool;
  stdio : option Stdio;
  timeout : option Z;
  input : option string;
  env : option (list (string * JS.Value))
}.

(** [{}] *)
Definition noOptions : ExecOptions :=
  {| throwOnError := None; shell := None; stdio := None; timeout := None;
     input := None; env := None |}.

Inductive Stream : Type := Log | Warn | Err.

(** The calls that leave the process, indexed by the type of their answer.
    A failing call answers with the error it throws. *)
Inductive event : Type -> Type :=
| GetEnv (name : string) : event (option string)
| ExecaCommand (command : string) (options : ExecOptions)
    : event (JsError + string)
| ReadFile (path : string) : event (JsError + string)
| Mkdir (path : string) : event (option JsError)
| WriteFile (path content : string) : event (option JsError)
| Chmod (path : string) (mode : Z) : event (option JsError)
| Unlink (path : string) : event (option JsError)
| Question (query : string) : event string
| Console (s : Stream) (text : string) : event unit
| DateNow : event Z
| Homedir : event string
| Tmpdir : event string.

(** Programs: a value, a thrown error, [process.exit(code)], or an event
    and what follows its answer. *)
Inductive prog (R : Type) : Type :=
| Ret (r : R)
| Throw (e : JsError)
| Exit (code : Z)
| Vis {X : Type} (ev : event X) (k : X -> prog R).

Arguments Ret {R} r.
Arguments Throw {R} e.
Arguments Exit {R} code.
Arguments Vis {R X} ev k.

Fixpoint bind {A B} (p : prog A) (f : A -> prog B) : prog B :=
  match p with
  | Ret a => f a
  | Throw e => Throw e
  | Exit c => Exit c
  | Vis ev k => Vis ev (fun x => bind (k x) f)
  end.

(** [try { p } catch (error) { h error }]: [process.exit] is not caught. *)
Fixpoint try_catch {A} (p : prog A) (h : JsError -> prog A) : prog A :=
  match p with
  | Ret a => Ret a
  | Throw e => h e
  | Exit c => Exit c
  | Vis ev k => Vis ev (fun x => try_catch (k x) h)
  end.

#[global] Instance prog_ret : MRet prog := fun _ r => Ret r.
#[global] Instance prog_bind : MBind prog := fun _ _ f p => bind p f.

Definition trigger {X} (ev : event X) : prog X := Vis ev Ret.

(** A file-system call that throws when it fails. *)
Definition fs (ev : event (option JsError)) : prog unit :=
  r ← trigger ev;
  match r with None => Ret tt | Some e => Throw e end.

Definition console (s : Stream) (text : string) : prog unit :=
  trigger (Console s text).

(** [console.log] of each line in turn. *)
Fixpoint consoleLines (lines : list string) : prog unit :=
  match lines with
  | [] => Ret tt
  | line :: rest => console Log line;; consoleLines rest
  end.

(** An answered event. *)
Inductive obs : Type :=
| Obs {X : Type} (ev : event X) (x : X).

Inductive outcome (R : Type) : Type :=
| Done (r : R)
| Thrown (e : JsError)
| Exited (code : Z).

Arguments Done {R} r.
Arguments Thrown {R} e.
Arguments Exited {R} code.

(** A file-system operation, for the faults of a world. *)
Inductive fsop : Type :=
| OpRead (path : string)
| OpMkdir (path : string)
| OpWrite (path : string)
| OpChmod (path : string)
| OpUnlink (path : string).

(** The world a run starts in: its environment variables, how each command
    ends, the files and their contents, which file operations fail, the
    line typed at the terminal, the clock and the two directories. *)
Record World : Type := {
  environ : string -> option string;
  proc : string -> ExecOptions -> JsError + string;
  files : gmap string string;
  fault : fsop -> option JsError;
  answer : string;
  now : Z;
  homedir : string;
  tmpdir : string
}.

Definition with_files (w : World) (f : gmap string string) : World :=
  {| environ := environ w; proc := proc w; files := f; fault := fault w;
     answer := answer w; now := now w; homedir := homedir w;
     tmpdir := tmpdir w |}.

Definition ENOENT (path : string) : JsError :=
  Error ("ENOENT: no such file or directory '" +:+ path +:+ "'").

(** How the world answers an event, and what it becomes.  A question is
    answered with the line of the world: this is the run in which a line
    is read.  At end of input [rl.question] does not call back; that run
    is [Outcomes.runClosed]. *)
Definition handle {X} (ev : event X) (w : World) : X * World :=
  match ev in event X return X * World with
  | GetEnv name => (environ w name, w)
  | ExecaCommand command options => (proc w command options, w)
  | ReadFile path =>
      match fault w (OpRead path) with
      | Some e => (inl e, w)
      | None =>
          match files w !! path with
          | Some text => (inr text, w)
          | None => (inl (ENOENT path), w)
          end
      end
  | Mkdir path => (fault w (OpMkdir path), w)
  | WriteFile path content =>
      match fault w (OpWrite path) with
      | Some e => (Some e, w)
      | None => (None, with_files w (<[path := content]> (files w)))
      end
  | Chmod path mode =>
      match fault w (OpChmod path) with
      | Some e => (Some e, w)
      | None =>
          match files w !! path with
          | Some _ => (None, w)
          | None => (Some (ENOENT path), w)
          end
      end
  | Unlink path =>
      match fault w (OpUnlink path) with
      | Some e => (Some e, w)
      | None =>
          match files w !! path with
          | Some _ => (None, with_files w (delete path (files w)))
          | None => (Some (ENOENT path), w)
          end
      end
  | Question _ => (answer w, w)
  | Console _ _ => (tt, w)
  | DateNow => (now w, w)
  | Homedir => (homedir w, w)
  | Tmpdir => (tmpdir w, w)
  end.

(** The result of a run. *)
Record result (R : Type) : Type := {
  out : outcome R;
  trace : list obs;
  final : World
}.

Arguments out {R} r.
Arguments trace {R} r.
Arguments final {R} r.

Fixpoint run {R} (p : prog R) (w : World) : result R :=
  match p with
  | Ret r => {| out := Done r; trace := []; final := w |}
  | Throw e => {| out := Thrown e; trace := []; final := w |}
  | Exit c => {| out := Exited c; trace := []; final := w |}
  | Vis ev k =>
      let '(x, w') := handle ev w in
      let r := run (k x) w' in
      {| out := out r; trace := Obs ev x :: trace r; final := final r |}
  end.

(** A run followed by another one: the second starts where the first
    returned, and does not start when the first threw or exited. *)
Definition extend {A B} (r : result A) (next : A -> World -> result B)
  : result B :=
  match out r with
  | Done a =>
      let r' := next a (final r) in
      {| out := out r'; trace := trace r ++ trace r'; final := final r' |}
  | Thrown e => {| out := Thrown e; trace := trace r; final := final r |}
  | Exited c => {| out := Exited c; trace := trace r; final := final r |}
  end.

(** A run inside [try]: the handler starts where the run threw. *)
Definition recover {A} (r : result A) (handler : JsError -> World -> result A)
  : result A :=
  match out r with
  | Thrown e =>
      let r' := handler e (final r) in
      {| out := out r'; trace := trace r ++ trace r'; final := final r' |}
  | _ => r
  end.

(** Two worlds that differ in their files only. *)
Definition same_outside (w w' : World) : Prop :=
  w' = with_files w (files w').

End Sys.

(** ** [src/lib/helpers.ts] *)

Module Helpers.
Import Sys.

(** [AuthResult] of [types.ts].  The declared type of [key] is
    [string | null]; the value [getAnthropicApiKey] puts there on the config
    path is a field of the result of [JSON.parse], of any type. *)
Inductive Method : Type := env_ | claude_cli | config | prompt.

Record AuthResult : Type := {
  method : Method;
  key : option JS.Value
}.

(** The text of [auth.method] in a template literal. *)
Definition methodName (m : Method) : string :=
  match m with
  | env_ => "env"
  | claude_cli => "claude-cli"
  | config => "config"
  | prompt => "prompt"
  end.

(** What [JSON.parse] makes of the config file, as far as the sources look
    at it: they read one field of it.  The value is [null] (reading a field
    of it throws), or any other value, with what its [anthropicApiKey]
    holds: nothing ([undefined], also for a value that is not an object), or
    a value of any type. *)
Inductive Config : Type :=
| CNull
| CObject (anthropicApiKey : option JS.Value).

(** The library functions the sources call and the two values they import
    from outside these files. *)
Class Platform : Type := {
  path_join : list string -> string;
  path_dirname : string -> string;
  JSON_parse : string -> option Config;
  JSON_stringify : Config -> Z -> string;
  ghcPath : string;
  isDebug : bool
}.

Section WithPlatform.
Context `{!Platform}.

(** [{ shell: true, ...options }] *)
Definition withShell (options : ExecOptions) : ExecOptions :=
  {| throwOnError := throwOnError options;
     shell := match shell options with Some b => Some b | None => Some true end;
     stdio := stdio options; timeout := timeout options;
     input := input options; env := env options |}.

(** [{ shell: true, stdio: 'inherit', ...options }] *)
Definition withShellInherit (options : ExecOptions) : ExecOptions :=
  {| throwOnError := throwOnError options;
     shell := match shell options with Some b => Some b | None => Some true end;
     stdio := match stdio options with Some m => Some m | None => Some inherit end;
     timeout := timeout options;
     input := input options; env := env options |}.

(** [options.throwOnError !== false] *)
Definition rethrows (options : ExecOptions) : bool :=
  match throwOnError options with Some false => false | _ => true end.

Definition exec (command : string) (options : ExecOptions)
  : prog (option string) :=
  r ← trigger (ExecaCommand command (withShell options));
  match r with
  | inr stdout => Ret (Some stdout)
  | inl error => if rethrows options then Throw error else Ret None
  end.

Definition execStream (command : string) (options : ExecOptions)
  : prog bool :=
  r ← trigger (ExecaCommand command (withShellInherit options));
  match r with
  | inr _ => Ret true
  | inl error => if rethrows options then Throw error else Ret false
  end.

(** [{ throwOnError: false }] *)
Definition quiet : ExecOptions :=
  {| throwOnError := Some false; shell := None; stdio := None;
     timeout := None; input := None; env := None |}.

(** [{ throwOnError: true }] *)
Definition strict : ExecOptions :=
  {| throwOnError := Some true; shell := None; stdio := None;
     timeout := None; input := None; env := None |}.

Definition getCurrentBranch : prog string :=
  branch ← exec "git branch --show-current" noOptions;
  match branch with
  | Some b => if JS.truthy b then Ret b
              else Throw (Error "Failed to get current branch")
  | None => Throw (Error "Failed to get current branch")
  end.

Definition hasUncommittedChanges : prog bool :=
  unstaged ← exec "git diff --name-only" quiet;
  staged ← exec "git diff --cached --name-only" quiet;
  untracked ← exec "git ls-files --others --exclude-standard" quiet;
  Ret (JS.truthy_opt unstaged || JS.truthy_opt staged
       || JS.truthy_opt untracked).

(** [path.join(os.homedir(), '.gh-claude-tools', 'config.json')] *)
Definition configPathOf (home : string) : string :=
  path_join [home; ".gh-claude-tools"; "config.json"].

(** Step 2 of [getAnthropicApiKey]: the [try] around the probe. *)
Definition probeSession : prog (option AuthResult) :=
  try_catch
    (_ ← exec "claude --version" strict;
     Ret (Some {| method := claude_cli; key := None |}))
    (fun _ => Ret None).

(** Step 3: the [try] around the stored config. *)
Definition readStoredKey (configPath : string)
  : prog (option AuthResult) :=
  try_catch
    (r ← trigger (ReadFile configPath);
     match r with
     | inl e => Throw e
     | inr text =>
         match JSON_parse text with
         | None => Throw (Error "Unexpected token in JSON")
         | Some CNull =>
             Throw (Error "Cannot read properties of null")
         | Some (CObject k) =>
             if JS.truthyKey k
             then Ret (Some {| method := config; key := k |})
             else Ret None
         end
     end)
    (fun _ => Ret None).

(** Step 4, after the key was read: the [try] that saves it. *)
Definition saveKey (configPath apiKey : string) : prog unit :=
  try_catch
    (fs (Mkdir (path_dirname configPath));;
     fs (WriteFile configPath
           (JSON_stringify (CObject (Some (JS.VString apiKey))) 2));;
     fs (Chmod configPath 384);;
     console Log ("✓ API key saved securely" +:+ JS.nl))
    (fun _ =>
       console Warn "⚠️  Could not save API key for future use").

Definition getAnthropicApiKey : prog AuthResult :=
  envKey ← trigger (GetEnv "ANTHROPIC_API_KEY");
  if JS.truthy_opt envKey
  then Ret {| method := env_; key := option_map JS.VString envKey |}
  else
    session ← probeSession;
    match session with
    | Some auth => Ret auth
    | None =>
        home ← trigger Homedir;
        let configPath := configPathOf home in
        stored ← readStoredKey configPath;
        match stored with
        | Some auth => Ret auth
        | None =>
            console Log
              (JS.nl +:+ "🔑 Anthropic API key required for AI features");;
            console Log
              ("Get your API key from: https://console.anthropic.com/settings/keys"
               +:+ JS.nl);;
            answer ← trigger (Question "Enter your Anthropic API key: ");
            let apiKey := JS.trim answer in
            if negb (JS.truthy apiKey)
            then Throw (Error "API key is required for AI features")
            else
              saveKey configPath apiKey;;
              Ret {| method := prompt; key := Some (JS.VString apiKey) |}
        end
    end.

(** [`claude --print "${prompt}"`] *)
Definition claudeCommand (prompt_ : string) : string :=
  "claude --print " +:+ JS.quoted prompt_.

Definition timeoutMessage : string :=
  "Claude CLI timed out after 90 seconds. The diff may be too large or Claude API is slow.".

(** Truthiness of [error.exitCode]. *)
Definition exitCodeTruthy (e : JsError) : bool :=
  match exitCode e with
  | Some c => negb (c =? 0)
  | None => false
  end.

(** The lines both branches log on success. *)
Definition responded (stdout : string) : prog string :=
  console Log "✅ Claude CLI responded";;
  console Log ("📤 Response length: " +:+ JS.show (JS.length stdout)
               +:+ " chars");;
  let trimmed := JS.trim stdout in
  console Log "🔄 Returning to caller...";;
  Ret trimmed.

(** The options of the call in the ['claude-cli'] branch. *)
Definition cliOptions (input_ : string) : ExecOptions :=
  {| throwOnError := None; shell := Some true; stdio := None;
     timeout := Some 90000; input := Some input_; env := None |}.

(** The options of the call in the other branch:
    [env: { ...process.env, ...env }]. *)
Definition keyOptions (input_ : string) (key_ : option JS.Value)
  : ExecOptions :=
  {| throwOnError := None; shell := Some true; stdio := None;
     timeout := Some 90000; input := Some input_;
     env := Some (match key_ with
                  | Some k => if JS.truthyValue k
                              then [("ANTHROPIC_API_KEY", k)] else []
                  | None => []
                  end) |}.

Definition executeClaudeCommand (prompt_ input_ : string) : prog string :=
  auth ← getAnthropicApiKey;
  console Log ("🔧 Auth method: " +:+ methodName (method auth));;
  console Log "⚡ Calling Claude CLI...";;
  match method auth with
  | claude_cli =>
      r ← trigger (ExecaCommand (claudeCommand prompt_)
                     (cliOptions input_));
      match r with
      | inr stdout => responded stdout
      | inl error =>
          console Log ("❌ Claude CLI failed: " +:+ message error);;
          if timedOut error then Throw (Error timeoutMessage)
          else Throw error
      end
  | _ =>
      r ← trigger (ExecaCommand (claudeCommand prompt_)
                     (keyOptions input_ (key auth)));
      match r with
      | inr stdout => responded stdout
      | inl error =>
          console Log ("❌ Claude CLI failed: " +:+ message error);;
          if timedOut error then Throw (Error timeoutMessage)
          else if exitCodeTruthy error then
            console Err (JS.nl +:+ "✗ Claude CLI is required but not found");;
            console Err ("Install with: npm install -g @anthropic-ai/claude-cli"
                         +:+ JS.nl);;
            Throw (Error "Claude CLI not found")
          else Throw error
      end
  end.

Definition commitPrompt : string :=
  "Write a conventional commit message for these changes. Format: <type>: <description>. Keep under 72 chars. Use types: feat/fix/docs/style/refactor/test/chore. Output ONLY the commit message, no explanation.".

Definition generateCommitMessage (diff : string) : prog string :=
  try_catch
    (let limitedDiff := Diff.limitDiffForCommit diff in
     executeClaudeCommand commitPrompt limitedDiff)
    (fun error =>
       console Err "✗ Failed to generate commit message with Claude";;
       Throw error).

Definition prPrompt : string :=
  "Based on these git changes, write a PR title (first line, under 72 chars) and description. Include: brief summary, key changes as bullets. Format for GitHub markdown. Output ONLY the title on first line, then a blank line, then the description.".

Definition generatePRContent (context : string) : prog string :=
  try_catch
    (console Log ("📊 Context size: " +:+ JS.show (JS.length context)
                  +:+ " characters");;
     result ← executeClaudeCommand prPrompt context;
     console Log "✨ PR content generated successfully";;
     Ret result)
    (fun error =>
       console Err "✗ Failed to generate PR content with Claude";;
       console Err ("Error details: " +:+ message error);;
       Throw error).

Definition ensureBranchPushed : prog unit :=
  branch ← getCurrentBranch;
  hasUpstream ← exec ("git rev-parse --abbrev-ref " +:+ branch
                      +:+ "@{upstream}") quiet;
  if negb (JS.truthy_opt hasUpstream) then
    console Log "⏳ Setting up branch tracking...";;
    _ ← exec ("git push -u origin " +:+ branch) noOptions;
    Ret tt
  else
    console Log ("⏳ Pushing " +:+ branch +:+ " to origin...");;
    _ ← exec "git push" noOptions;
    Ret tt.

(** [x || ''] *)
Definition orEmpty (o : option string) : string :=
  match o with
  | Some s => s
  | None => EmptyString
  end.

Definition getPRContext : prog string :=
  diffStat ← exec "git diff origin/main...HEAD --stat" noOptions;
  commits ← exec "git log origin/main..HEAD --oneline" noOptions;
  fullDiff ← exec "git diff origin/main...HEAD" noOptions;
  let '(lines, limitedDiff) := Diff.limitDiffForPR_w (orEmpty fullDiff) in
  consoleLines lines;;
  Ret ("Diff summary:" +:+ JS.nl +:+ orEmpty diffStat +:+ JS.nl +:+ JS.nl
       +:+ "Commits:" +:+ JS.nl +:+ orEmpty commits +:+ JS.nl +:+ JS.nl
       +:+ "Sample changes:" +:+ JS.nl +:+ limitedDiff).

(** [prUrl || null] keeps [null] for the empty string. *)
Definition getCurrentPR : prog (option string) :=
  try_catch
    (prUrl ← exec "gh pr view --json url -q .url" noOptions;
     Ret (if JS.truthy_opt prUrl then prUrl else None))
    (fun _ => Ret None).

Definition hasStagedChanges : prog bool :=
  staged ← exec "git diff --cached --name-only" quiet;
  Ret (JS.truthy_opt staged).

Definition stageAllChanges : prog unit :=
  console Log "📝 Staging all changes...";;
  _ ← exec "git add -A" noOptions;
  Ret tt.

End WithPlatform.
End Helpers.

(** ** [src/bin/ghp.ts] *)

Module Ghp.
Import Sys Helpers.

(** The longest prefix without white space: [[^\s]+] from the start. *)
Fixpoint takeNonWhite (s : string) : string :=
  match s with
  | EmptyString => EmptyString
  | String c rest =>
      if JS.is_white c then EmptyString else String c (takeNonWhite rest)
  end.

(** [s.match(/https:\/\/[^\s]+/)?.[0]]: the first match, if any. *)
Fixpoint matchUrl (s : string) : option string :=
  let here :=
    if String.prefix "https://" s then
      match takeNonWhite (String.substring 8 (String.length s) s) with
      | EmptyString => None
      | String c t => Some ("https://" +:+ String c t)
      end
    else None in
  match here with
  | Some url => Some url
  | None =>
      match s with
      | EmptyString => None
      | String _ rest => matchUrl rest
      end
  end.

(** [lines[0]] of [prContent.split('\n')]. *)
Definition titleOf (prContent : string) : string :=
  match JS.split prContent "010" with
  | title :: _ => title
  | [] => EmptyString
  end.

(** [prContent.split('\n').slice(2).join('\n')] *)
Definition descriptionOf (prContent : string) : string :=
  JS.join (JS.slice_from (JS.split prContent "010") 2) JS.nl.

Section WithPlatform.
Context `{!Platform}.

(** [path.join(os.tmpdir(), `${stem}-${Date.now()}.md`)] *)
Definition tmpFileOf (dir stem : string) (stamp : Z) : string :=
  path_join [dir; stem +:+ "-" +:+ JS.show stamp +:+ ".md"].

(** Lines 21-28: commit first when the tree is dirty. *)
Definition commitIfNeeded : prog unit :=
  dirty ← hasUncommittedChanges;
  if (dirty : bool) then
    console Log "📝 Uncommitted changes detected...";;
    ghcResult ← execStream ("node " +:+ JS.quoted ghcPath) quiet;
    if negb ghcResult then Exit 1 else Ret tt
  else Ret tt.

(** Lines 31-40: push with tracking. *)
Definition pushBranch (branch : string) : prog unit :=
  try_catch
    (ensureBranchPushed;;
     console Log ("✓ Pushed to origin/" +:+ branch))
    (fun error =>
       console Log "✗ Push failed";;
       (if isDebug
        then console Log ("Error details: " +:+ message error)
        else Ret tt);;
       Exit 1).

(** Lines 57-62: the description goes to the hosting CLI through a
    temporary file. *)
Definition editDescription (description : string) : prog unit :=
  dir ← trigger Tmpdir;
  stamp ← trigger DateNow;
  let tmpFile := tmpFileOf dir "pr-edit" stamp in
  fs (WriteFile tmpFile description);;
  _ ← exec ("gh pr edit --body-file " +:+ JS.quoted tmpFile) noOptions;
  fs (Unlink tmpFile);;
  console Log "✓ PR description updated".

(** Lines 46-62: a pull request exists. *)
Definition updateExistingPR (existingPR : string) : prog unit :=
  console Log ("✓ PR already exists: " +:+ existingPR);;
  console Log "⏳ Auto-updating PR description...";;
  context ← getPRContext;
  prContent ← generatePRContent context;
  let description := descriptionOf prContent in
  editDescription description.

(** Lines 65-102: no pull request yet. *)
Definition createNewPR (branch : string) : prog unit :=
  console Log "⏳ Creating new PR...";;
  console Log "⏳ Generating PR title and description...";;
  context ← getPRContext;
  prContent ← generatePRContent context;
  let title := titleOf prContent in
  let body := descriptionOf prContent in
  try_catch
    (dir ← trigger Tmpdir;
     stamp ← trigger DateNow;
     let tmpFile := tmpFileOf dir "pr-body" stamp in
     fs (WriteFile tmpFile body);;
     (if isDebug
      then console Log ("📝 Creating PR with title: " +:+ title)
      else Ret tt);;
     let escapedTitle := JS.escapeQuotes title in
     prOutput ← exec ("gh pr create --title " +:+ JS.quoted escapedTitle
                      +:+ " --body-file " +:+ JS.quoted tmpFile
                      +:+ " --base main --head " +:+ JS.quoted branch)
                  noOptions;
     fs (Unlink tmpFile);;
     match prOutput ≫= matchUrl with
     | Some prUrl => console Log ("✓ PR created: " +:+ prUrl)
     | None => Ret tt
     end)
    (fun error =>
       console Log "✗ Failed to create PR";;
       console Err (message error);;
       Exit 1).

Definition main : prog unit :=
  try_catch
    (branch ← getCurrentBranch;
     commitIfNeeded;;
     pushBranch branch;;
     existingPR ← getCurrentPR;
     match existingPR with
     | Some url => updateExistingPR url
     | None => createNewPR branch
     end)
    (fun error =>
       console Err ("Error: " +:+ message error);;
       Exit 1).

End WithPlatform.
End Ghp.

(** ** What a run shows *)

Module Observe.
Import Sys Helpers.

(** The four places a key can come from. *)
Inductive Source : Type := EnvVar | SessionProbe | ConfigFile | Terminal.

(** The source an event of [getAnthropicApiKey] consults, if any: the only
    command it runs is the probe, the only file it reads is the config. *)
Definition sourceOf (o : obs) : option Source :=
  match o with
  | Obs ev _ =>
      match ev with
      | GetEnv _ => Some EnvVar
      | ExecaCommand _ _ => Some SessionProbe
      | ReadFile _ => Some ConfigFile
      | Question _ => Some Terminal
      | _ => None
      end
  end.

Definition consulted (t : list obs) : list Source := omap sourceOf t.

(** The commands a run started, in order. *)
Definition commandOf (o : obs) : option string :=
  match o with
  | Obs ev _ =>
      match ev with
      | ExecaCommand command _ => Some command
      | _ => None
      end
  end.

Definition commands (t : list obs) : list string := omap commandOf t.

Section WithPlatform.
Context {P : Platform}.

(** The first source yields a key: the variable is set and not empty. *)
Definition envYields (w : World) : bool :=
  JS.truthy_opt (environ w "ANTHROPIC_API_KEY").

(** The second source yields: the probe command succeeds. *)
Definition probeYields (w : World) : bool :=
  match proc w "claude --version" (withShell strict) with
  | inr _ => true
  | inl _ => false
  end.

(** The key the third source yields: the config file can be read, parses
    to something other than [null], and holds a truthy key. *)
Definition storedKey (w : World) : option JS.Value :=
  match fst (handle (ReadFile (configPathOf (homedir w))) w) with
  | inr text =>
      match JSON_parse text with
      | Some (CObject (Some k)) =>
          if JS.truthyValue k then Some k else None
      | _ => None
      end
  | inl _ => None
  end.

(** Saving the key works: none of the three calls fails. *)
Definition canSave (w : World) : bool :=
  let configPath := configPathOf (homedir w) in
  match fault w (OpMkdir (path_dirname configPath)),
        fault w (OpWrite configPath),
        fault w (OpChmod configPath) with
  | None, None, None => true
  | _, _, _ => false
  end.

(** The events of [getAnthropicApiKey] up to the answer of the probe. *)
Definition upToProbe (w : World) : list obs :=
  [Obs (GetEnv "ANTHROPIC_API_KEY") (environ w "ANTHROPIC_API_KEY");
   Obs (ExecaCommand "claude --version" (withShell strict))
     (proc w "claude --version" (withShell strict))].

(** ... up to the reading of the config file. *)
Definition upToConfig (w : World) : list obs :=
  upToProbe w
  ++ [Obs Homedir (homedir w);
      Obs (ReadFile (configPathOf (homedir w)))
        (fst (handle (ReadFile (configPathOf (homedir w))) w))].

(** ... up to the line typed at the terminal. *)
Definition upToAnswer (w : World) : list obs :=
  upToConfig w
  ++ [Obs (Console Log
             (JS.nl +:+ "🔑 Anthropic API key required for AI features"))
        tt;
      Obs (Console Log
             ("Get your API key from: https://console.anthropic.com/settings/keys"
              +:+ JS.nl)) tt;
      Obs (Question "Enter your Anthropic API key: ") (answer w)].

(** The warning of a failed save. *)
Definition saveWarning : obs :=
  Obs (Console Warn "⚠️  Could not save API key for future use") tt.

(** The options of the completion call made for [auth]. *)
Definition invocationOptions (auth : AuthResult) (input_ : string)
  : ExecOptions :=
  match method auth with
  | claude_cli => cliOptions input_
  | _ => keyOptions input_ (key auth)
  end.

End WithPlatform.

(** [only ok p]: every command [p] can start satisfies [ok], whatever the
    answers it gets. *)
Inductive only (ok : string -> Prop) {R : Type} : prog R -> Prop :=
| only_Ret (r : R) : only ok (Ret r)
| only_Throw (e : JsError) : only ok (Throw e)
| only_Exit (code : Z) : only ok (Exit code)
| only_Vis {X : Type} (ev : event X) (k : X -> prog R) :
    match ev with
    | ExecaCommand command _ => ok command
    | _ => True
    end ->
    (forall x : X, only ok (k x)) ->
    only ok (Vis ev k).


(** The run of [main] up to the query for a pull request (lines 18-43):
    it returns the branch and what [getCurrentPR] found. *)
Definition beforePR {P : Platform} (w : World)
  : result (string * option string) :=
  extend (run getCurrentBranch w) (fun branch w0 =>
  extend (run Ghp.commitIfNeeded w0) (fun _ w1 =>
  extend (run (Ghp.pushBranch branch) w1) (fun _ w2 =>
  extend (run getCurrentPR w2) (fun existingPR w3 =>
    {| out := Done (branch, existingPR); trace := []; final := w3 |})))).

End Observe.

(** ** Inputs and worlds used in the examples *)

Module Fixtures.
Import Sys Helpers.

(** One added line of 15,001 characters. *)
Definition longAddedLine : string := String "+" (JS.fill "a" 15000).

(** 100,001 characters on one line. *)
Definition hugeDiff : string := JS.fill "a" 100001.

(** One file with 12,000 added lines: 36,018 characters. *)
Definition manyAddedLines : string :=
  "diff --git a/f b/f"
  +:+ Nat.iter (Z.to_nat 12000) (fun s => JS.nl +:+ "+x" +:+ s) EmptyString.

(** 3,000 header lines and nothing else: 44,999 characters. *)
Definition onlyHeaders : string :=
  JS.join (List.repeat "--- a/file.txt" (Z.to_nat 3000)) JS.nl.

(** The text this tool writes for a key, and its reading back: enough of
    JSON for the config file. *)
Definition keyOpen : string :=
  "{" +:+ JS.nl +:+ "  " +:+ JS.quoted "anthropicApiKey" +:+ ": " +:+ JS.dq.

Definition keyClose : string := JS.dq +:+ JS.nl +:+ "}".

(** A config file written by hand, with a number for the key:
    [{"anthropicApiKey": 123}]. *)
Definition numberConfig : string :=
  "{" +:+ JS.quoted "anthropicApiKey" +:+ ": 123}".

Definition stringify (c : Config) (indent : Z) : string :=
  match c with
  | CNull => "null"
  | CObject None => "{}"
  | CObject (Some (JS.VString k)) => keyOpen +:+ k +:+ keyClose
  | CObject (Some (JS.VOther _ text)) =>
      "{" +:+ JS.nl +:+ "  " +:+ JS.quoted "anthropicApiKey" +:+ ": "
      +:+ text +:+ JS.nl +:+ "}"
  end.

Definition parse (text : string) : option Config :=
  if String.eqb text "null" then Some CNull
  else if String.eqb text "{}" then Some (CObject None)
  else if String.eqb text numberConfig then
    Some (CObject (Some (JS.VOther true "123")))
  else if String.prefix keyOpen text && JS.endsWith text keyClose then
    Some (CObject (Some (JS.VString
      (String.substring (String.length keyOpen)
         (String.length text - String.length keyOpen
          - String.length keyClose) text))))
  else None.

(** A POSIX-like platform. *)
Definition posix : Platform :=
  {| path_join := fun parts => JS.join parts "/";
     path_dirname := fun p =>
       JS.join (removelast (JS.split p "/")) "/";
     JSON_parse := parse;
     JSON_stringify := stringify;
     ghcPath := "/opt/gh-claude-tools/dist/bin/ghc.js";
     isDebug := false |}.

(** A child process that exits with the given code. *)
Definition exited (code : Z) : JsError :=
  {| message := "Command failed with exit code " +:+ JS.show code;
     timedOut := false; exitCode := Some code |}.

(** A child process killed at its timeout. *)
Definition killedAtTimeout : JsError :=
  {| message := "Command timed out after 90000 milliseconds";
     timedOut := true; exitCode := None |}.

(** A machine with nothing on it: no variable, every command fails with
    exit code 127, no file, an empty line at the terminal. *)
Definition bare : World :=
  {| environ := fun _ => None;
     proc := fun _ _ => inl (exited 127);
     files := ∅;
     fault := fun _ => None;
     answer := EmptyString;
     now := 1700000000000;
     homedir := "/home/dev";
     tmpdir := "/tmp" |}.

Definition with_environ (w : World) (name value : string) : World :=
  {| environ := fun n => if String.eqb n name then Some value
                         else environ w n;
     proc := proc w; files := files w; fault := fault w;
     answer := answer w; now := now w; homedir := homedir w;
     tmpdir := tmpdir w |}.

(** Commands that start with [start] now end as [r]. *)
Definition with_proc (w : World) (start : string) (r : JsError + string)
  : World :=
  {| environ := environ w;
     proc := fun command options =>
               if String.prefix start command then r
               else proc w command options;
     files := files w; fault := fault w;
     answer := answer w; now := now w; homedir := homedir w;
     tmpdir := tmpdir w |}.

Definition with_answer (w : World) (line : string) : World :=
  {| environ := environ w; proc := proc w; files := files w;
     fault := fault w; answer := line; now := now w;
     homedir := homedir w; tmpdir := tmpdir w |}.

(** Every write to the file system now fails. *)
Definition read_only (w : World) : World :=
  {| environ := environ w; proc := proc w; files := files w;
     fault := fun op =>
                match op with
                | OpRead _ => fault w op
                | _ => Some (Error "EROFS: read-only file system")
                end;
     answer := answer w; now := now w; homedir := homedir w;
     tmpdir := tmpdir w |}.

(** The API-key variable is set, to the empty string; the AI CLI has a
    session. *)
Definition emptyKeyWorld : World :=
  with_proc (with_environ bare "ANTHROPIC_API_KEY" EmptyString)
    "claude --version" (inr "1.0.17 (Claude Code)").

(** The API-key variable holds a key. *)
Definition envKeyWorld : World :=
  with_environ bare "ANTHROPIC_API_KEY" "sk-ant-env".

(** The AI CLI has a session and its completion call exits with code 1. *)
Definition sessionFailsWorld : World :=
  with_proc (with_proc bare "claude --version" (inr "1.0.17 (Claude Code)"))
    "claude --print" (inl (exited 1)).

(** The variable holds a key and the completion call exits with code 1. *)
Definition envKeyFailsWorld : World :=
  with_proc envKeyWorld "claude --print" (inl (exited 1)).

(** The AI CLI has a session and its completion call is killed at the
    timeout. *)
Definition sessionTimesOutWorld : World :=
  with_proc (with_proc bare "claude --version" (inr "1.0.17 (Claude Code)"))
    "claude --print" (inl killedAtTimeout).

(** The config file was written by hand and holds a number for the key. *)
Definition numberKeyWorld : World :=
  with_files bare
    {[ "/home/dev/.gh-claude-tools/config.json" := numberConfig ]}.


(** A key is typed at the terminal and nothing can be written. *)
Definition typedKeyReadOnly : World :=
  read_only (with_answer bare "  sk-ant-typed  ").

(** A repository on branch [feature] with a pull request; the AI CLI
    answers with a title, a blank line and two lines of description. *)
Definition repoWithPR : World :=
  with_proc
    (with_proc
       (with_proc
          (with_proc
             (with_environ (with_proc bare EmptyString (inr EmptyString))
                "ANTHROPIC_API_KEY" "sk-ant-env")
             "git branch --show-current" (inr "feature"))
          "git rev-parse" (inr "origin/feature"))
       "gh pr view" (inr "https://github.com/x/y/pull/1"))
    "claude --print"
    (inr ("Add widget support" +:+ JS.nl +:+ JS.nl +:+ "Summary"
          +:+ JS.nl +:+ "- widgets")).

(** The same repository, but the push is refused. *)
Definition repoPushFails : World :=
  with_proc repoWithPR "git push" (inl (exited 1)).

(** The same repository, without a pull request: the query fails. *)
Definition repoWithoutPR : World :=
  with_proc repoWithPR "gh pr view" (inl (exited 1)).

(** The same repository with a change, staged; the AI CLI answers with
    a commit message, with white space around it. *)
Definition repoWithStagedChange : World :=
  with_proc
    (with_proc repoWithPR "git diff"
       (inr ("diff --git a/x b/x" +:+ JS.nl +:+ "+line")))
    "claude --print" (inr (" feat: add widgets" +:+ JS.nl)).

(** The same, with no key in the environment and no session of the AI
    CLI: resolution goes on to the terminal. *)
Definition repoWithoutKey : World :=
  with_proc
    (with_environ repoWithStagedChange "ANTHROPIC_API_KEY" EmptyString)
    "claude --version" (inl (exited 127)).

(** The same repository with a new file that is not tracked, and that
    staging does not add. *)
Definition repoWithIgnoredFile : World :=
  with_proc repoWithPR "git ls-files" (inr "notes.txt").

(** A machine with [git] only. *)
Definition gitOnly : World := with_proc bare "which git" (inr "/usr/bin/git").

(** The same repository, on a system that refuses to remove files. *)
Definition repoWithPRKeepsFiles : World :=
  {| environ := environ repoWithPR; proc := proc repoWithPR;
     files := files repoWithPR;
     fault := fun op =>
                match op with
                | OpUnlink _ => Some (Error "EPERM: operation not permitted")
                | _ => fault repoWithPR op
                end;
     answer := answer repoWithPR; now := now repoWithPR;
     homedir := homedir repoWithPR; tmpdir := tmpdir repoWithPR |}.

(** One file with its two file marks, a hunk header, a context line and
    12,000 added lines. *)
Definition markedDiff : string :=
  "diff --git a/f b/f" +:+ JS.nl +:+ "--- a/f" +:+ JS.nl +:+ "+++ b/f"
  +:+ JS.nl +:+ "@@ -1 +1,12000 @@" +:+ JS.nl +:+ " context"
  +:+ Nat.iter (Z.to_nat 12000) (fun s => JS.nl +:+ "+x" +:+ s) EmptyString.


End Fixtures.

(** ** [src/bin/ghc.ts] *)

Module Ghc.
Import Sys Helpers.

Section WithPlatform.
Context `{!Platform}.

(** Lines 38-54: the commit, the pull request of the branch, the exit. *)
Definition commitWith (commitMsg : string) : prog unit :=
  try_catch
    (_ ← exec ("git commit -m " +:+ JS.quoted commitMsg) noOptions;
     console Log "✓ Committed successfully";;
     prUrl ← getCurrentPR;
     (if JS.truthy_opt prUrl
      then console Log ("📎 PR: " +:+ orEmpty prUrl)
      else Ret tt);;
     Exit 0)
    (fun error =>
       console Log "✗ Commit failed";;
       console Log (JS.nl +:+ "Error details:");;
       console Log (message error);;
       Exit 1).

Definition main : prog unit :=
  try_catch
    (dirty ← hasUncommittedChanges;
     (if negb dirty
      then console Log "✅ No changes to commit";; Exit 0
      else Ret tt);;
     staged ← hasStagedChanges;
     (if negb staged then stageAllChanges else Ret tt);;
     diff ← exec "git diff --cached" noOptions;
     (if negb (JS.truthy_opt diff)
      then console Log "✗ No staged changes to commit";; Exit 1
      else Ret tt);;
     console Log "🤖 Generating commit message...";;
     commitMsg ← generateCommitMessage (orEmpty diff);
     console Log ("📝 Commit message: " +:+ commitMsg);;
     commitWith commitMsg)
    (fun error =>
       console Err ("Error: " +:+ message error);;
       Exit 1).

End WithPlatform.
End Ghc.

(** ** [src/bin/ghcp.ts] *)

Module Ghcp.
Import Sys Helpers.

Section WithPlatform.
Context `{!Platform}.

Definition main : prog unit :=
  try_catch
    (console Log "🚀 Starting commit and push workflow...";;
     ghcResult ← execStream ("node " +:+ JS.quoted ghcPath) quiet;
     (if negb ghcResult then Exit 1 else Ret tt);;
     branch ← getCurrentBranch;
     try_catch
       (ensureBranchPushed;;
        console Log ("✓ Pushed to origin/" +:+ branch))
       (fun _ =>
          console Log "✗ Push failed";;
          Exit 1);;
     prUrl ← getCurrentPR;
     if JS.truthy_opt prUrl
     then console Log ("📎 PR: " +:+ orEmpty prUrl)
     else console Log "💡 No PR yet. Run 'ghp' to create one.")
    (fun error =>
       console Err ("Error: " +:+ message error);;
       Exit 1).

End WithPlatform.
End Ghcp.

(** ** [src/bin/ghpa.ts] *)

Module Ghpa.
Import Sys Helpers.

(** [ghpPath] is [require.resolve('./ghp')]. *)
Definition main (ghpPath : string) : prog unit :=
  try_catch
    (console Log "🚀 Creating PR with auto-merge...";;
     ghpResult ← execStream ("node " +:+ JS.quoted ghpPath) quiet;
     (if negb ghpResult then Exit 1 else Ret tt);;
     console Log "⏳ Enabling auto-merge...";;
     try_catch
       (_ ← exec "gh pr merge --auto --squash" noOptions;
        console Log "✓ Auto-merge enabled")
       (fun _ =>
          console Log
            "⚠️  Could not enable auto-merge (may already be enabled or checks pending)"))
    (fun error =>
       console Err ("Error: " +:+ message error);;
       Exit 1).

End Ghpa.

(** ** The new-branch command ([ghn]) *)

Module Ghn.
Import Sys Helpers.

(** [argv] is [process.argv]. *)
Definition main (argv : list string) : prog unit :=
  let branchName := argv !! 2%nat in
  (if negb (JS.truthy_opt branchName)
   then console Err "Usage: ghn <branch-name>";; Exit 1
   else Ret tt);;
  let branchName := orEmpty branchName in
  try_catch
    (console Log ("⏳ Creating new branch '" +:+ branchName
                  +:+ "' from origin/main...");;
     _ ← exec "git fetch origin" noOptions;
     _ ← exec ("git checkout -b " +:+ JS.quoted branchName
               +:+ " origin/main") noOptions;
     console Log ("✓ Switched to new branch '" +:+ branchName +:+ "'"))
    (fun error =>
       console Log "✗ Failed to create branch";;
       console Err (message error);;
       Exit 1).

End Ghn.

(** ** The check of the requirements
       ([src/scripts/check-requirements.ts], [scripts/check-requirements.js]) *)

Module CheckRequirements.
Import Sys.

(** [promisify(exec)] of [child_process]: the command runs in a shell, with
    no options, and a failing command rejects. *)
Definition execAsync (command : string) : prog string :=
  r ← trigger (ExecaCommand command noOptions);
  match r with
  | inr stdout => Ret stdout
  | inl error => Throw error
  end.

Definition checkCommand (command name installInstructions : string)
  : prog bool :=
  try_catch
    (_ ← execAsync ("which " +:+ command);
     console Log ("✓ " +:+ name +:+ " is installed");;
     Ret true)
    (fun _ =>
       console Log ("✗ " +:+ name +:+ " is not installed");;
       console Log ("  " +:+ installInstructions);;
       Ret false).

Record CommandCheck : Type := {
  command : string;
  name : string;
  installInstructions : string
}.

Definition checks : list CommandCheck :=
  [ {| command := "git"; name := "Git";
       installInstructions := "Install from: https://git-scm.com/downloads" |};
    {| command := "gh"; name := "GitHub CLI";
       installInstructions :=
         "Install with: brew install gh (macOS) or see https://cli.github.com/" |};
    {| command := "claude"; name := "Claude CLI";
       installInstructions :=
         "Install with: npm install -g @anthropic-ai/claude-cli" |} ].

(** The last lines of both versions of [main]. *)
Definition report (allGood : bool) : prog unit :=
  console Log EmptyString;;
  if allGood then
    console Log "✅ All requirements are installed!";;
    console Log (JS.nl +:+ "You can now use: ghc, ghp, ghpa, ghn, ghcp")
  else
    console Log
      "⚠️  Some requirements are missing. Please install them before using gh-claude-tools.".

(** [for (const check of checks) allGood = allGood && await checkCommand(...)]:
    [&&] does not evaluate its right side when [allGood] is false. *)
Fixpoint checkEach (todo : list CommandCheck) (allGood : bool) : prog bool :=
  match todo with
  | [] => Ret allGood
  | check :: rest =>
      allGood ← (if allGood
                 then checkCommand (command check) (name check)
                        (installInstructions check)
                 else Ret false);
      checkEach rest allGood
  end.

(** [main] of [check-requirements.ts]. *)
Definition main : prog unit :=
  console Log (JS.nl +:+ "Checking gh-claude-tools requirements..." +:+ JS.nl);;
  allGood ← checkEach checks true;
  report allGood.

(** [main] of [check-requirements.js]: [allGood &= await checkCommand(...)]
    evaluates both sides. *)
Definition mainJs : prog unit :=
  console Log (JS.nl +:+ "Checking gh-claude-tools requirements..." +:+ JS.nl);;
  let allGood := true in
  git ← checkCommand "git" "Git" "Install from: https://git-scm.com/downloads";
  let allGood := allGood && git in
  gh ← checkCommand "gh" "GitHub CLI"
         "Install with: brew install gh (macOS) or see https://cli.github.com/";
  let allGood := allGood && gh in
  claude ← checkCommand "claude" "Claude CLI"
             "Install with: npm install -g @anthropic-ai/claude-cli";
  let allGood := allGood && claude in
  report allGood.

End CheckRequirements.

(** ** How programs end and what they start *)

Module Outcomes.
Import Sys.



(** A call of the AI client's completion command carries [input_] on its
    standard input and the timeout of 90,000 ms. *)
Definition aiCallWith (input_ : string) (X : Type) (ev : event X) : Prop :=
  match ev with
  | ExecaCommand command options =>
      String.prefix "claude --print" command = true ->
      input options = Some input_ /\ timeout options = Some 90000
  | _ => True
  end.

(** The string is empty or does not start with white space. *)
Definition headOK (s : string) : Prop :=
  match s with
  | EmptyString => True
  | String c _ => JS.is_white c = false
  end.

(** The commands of the branch of [ghp] without a pull request, on branch
    [branch]: the three reads of the repository, the probe and the
    completion call of the AI CLI, and the creation of a pull request
    against [main] from [branch], with its body in a file. *)
Definition createCommand (branch command : string) : Prop :=
  In command
    ["git diff origin/main...HEAD --stat";
     "git log origin/main..HEAD --oneline";
     "git diff origin/main...HEAD";
     "claude --version";
     Helpers.claudeCommand Helpers.prPrompt]
  \/ exists title tmpFile : string,
       command = "gh pr create --title " +:+ JS.quoted title
                 +:+ " --body-file " +:+ JS.quoted tmpFile
                 +:+ " --base main --head " +:+ JS.quoted branch.

(** The commands of [ghcp]: the commit command, the reads of the branch
    and of its upstream, a push, and the query for a pull request. *)
Definition ghcpCommand {P : Helpers.Platform} (command : string) : Prop :=
  In command
    ["node " +:+ JS.quoted Helpers.ghcPath;
     "git branch --show-current";
     "git push";
     "gh pr view --json url -q .url"]
  \/ (exists branch : string,
        command = "git rev-parse --abbrev-ref " +:+ branch +:+ "@{upstream}"
        \/ command = "git push -u origin " +:+ branch).

(** The number of double quotes of a string. *)
Fixpoint countQuotes (s : string) : nat :=
  match s with
  | EmptyString => 0
  | String c rest =>
      if Ascii.eqb c "034"%char then S (countQuotes rest)
      else countQuotes rest
  end.

(** Every double quote of [s] comes right after a backslash; [after] tells
    whether the character before [s] is a backslash. *)
Fixpoint quotesEscaped (after : bool) (s : string) : bool :=
  match s with
  | EmptyString => true
  | String c rest =>
      (negb (Ascii.eqb c "034"%char) || after)
      && quotesEscaped (Ascii.eqb c "\"%char) rest
  end.

(** No white space in the string. *)
Fixpoint noWhite (s : string) : bool :=
  match s with
  | EmptyString => true
  | String c rest => negb (JS.is_white c) && noWhite rest
  end.

(** What a run wrote to the console, in order. *)
Definition consoleOf (o : obs) : option (Stream * string) :=
  match o with
  | Obs ev _ =>
      match ev with
      | Console s text => Some (s, text)
      | _ => None
      end
  end.

Definition written (t : list obs) : list (Stream * string) :=
  omap consoleOf t.

(** [which command] succeeds. *)
Definition installed (w : World) (command : string) : bool :=
  match proc w ("which " +:+ command) noOptions with
  | inr _ => true
  | inl _ => false
  end.

(** A command printed something: it succeeded with a non-empty output. *)
Definition printed (r : JsError + string) : bool :=
  match r with
  | inr stdout => JS.truthy stdout
  | inl _ => false
  end.

(** [ends okRet okThrow okExit p]: whatever the answers, [p] returns only
    values that satisfy [okRet], throws only errors that satisfy [okThrow]
    and exits only with codes that satisfy [okExit]. *)
Inductive ends {R : Type} (okRet : R -> Prop) (okThrow : JsError -> Prop)
    (okExit : Z -> Prop) : prog R -> Prop :=
| ends_Ret (r : R) : okRet r -> ends okRet okThrow okExit (Ret r)
| ends_Throw (e : JsError) : okThrow e -> ends okRet okThrow okExit (Throw e)
| ends_Exit (code : Z) : okExit code -> ends okRet okThrow okExit (Exit code)
| ends_Vis {X : Type} (ev : event X) (k : X -> prog R) :
    (forall x : X, ends okRet okThrow okExit (k x)) ->
    ends okRet okThrow okExit (Vis ev k).

(** What [ends] says of an outcome. *)
Definition ended {R : Type} (okRet : R -> Prop) (okThrow : JsError -> Prop)
    (okExit : Z -> Prop) (o : outcome R) : Prop :=
  match o with
  | Done r => okRet r
  | Thrown e => okThrow e
  | Exited code => okExit code
  end.

(** [every ok p]: whatever the answers, every event [p] raises satisfies
    [ok]. *)
Inductive every (ok : forall X : Type, event X -> Prop) {R : Type}
  : prog R -> Prop :=
| every_Ret (r : R) : every ok (Ret r)
| every_Throw (e : JsError) : every ok (Throw e)
| every_Exit (code : Z) : every ok (Exit code)
| every_Vis {X : Type} (ev : event X) (k : X -> prog R) :
    ok X ev ->
    (forall x : X, every ok (k x)) ->
    every ok (Vis ev k).

(** The event of an answered event satisfies [ok]. *)
Definition observed (ok : forall X : Type, event X -> Prop) (o : obs) : Prop :=
  match o with
  | Obs ev _ => ok _ ev
  end.

(** The event starts a command. *)
Definition isCommand {X : Type} (ev : event X) : bool :=
  match ev with
  | ExecaCommand _ _ => true
  | _ => false
  end.

(** [follows w post p]: [post] holds of the commands [p] starts and of how
    it ends, when the commands end as [w] says and whatever the answers to
    the other events. *)
Inductive follows (w : World) {R : Type}
    (post : list string -> outcome R -> Prop) : prog R -> Prop :=
| follows_Ret (r : R) : post [] (Done r) -> follows w post (Ret r)
| follows_Throw (e : JsError) :
    post [] (Thrown e) -> follows w post (Throw e)
| follows_Exit (code : Z) :
    post [] (Exited code) -> follows w post (Exit code)
| follows_Exec (command : string) (options : ExecOptions)
    (k : JsError + string -> prog R) :
    follows w (fun cmds o => post (command :: cmds) o)
      (k (proc w command options)) ->
    follows w post (Vis (ExecaCommand command options) k)
| follows_Vis {X : Type} (ev : event X) (k : X -> prog R) :
    isCommand ev = false ->
    (forall x : X, follows w post (k x)) ->
    follows w post (Vis ev k).

(** The event asks a question at the terminal. *)
Definition isQuestion {X : Type} (ev : event X) : bool :=
  match ev with
  | Question _ => true
  | _ => false
  end.

(** How a run ends when the terminal is at end of input: as a run of
    [Sys.run] does, or never.  [rl.question] does not call back there, so
    the promise of a program that asks never settles: no value, no error,
    no [process.exit]; node ends, with status 0, when nothing is left to
    do. *)
Inductive ending (R : Type) : Type :=
| Settled (o : outcome R)
| Pending.

Arguments Settled {R} o.
Arguments Pending {R}.

(** The run of [p] in [w] when the terminal is at end of input: the
    events answered and how the run ends.  It is the run of [Sys.run] up
    to the first question. *)
Fixpoint runClosed {R : Type} (p : prog R) (w : World)
  : list obs * ending R :=
  match p with
  | Ret r => ([], Settled (Done r))
  | Throw e => ([], Settled (Thrown e))
  | Exit c => ([], Settled (Exited c))
  | Vis ev k =>
      if isQuestion ev then ([], Pending)
      else
        let '(x, w') := handle ev w in
        let '(t, e) := runClosed (k x) w' in
        (Obs ev x :: t, e)
  end.

(** [command] is among the commands [cmds]. *)
Definition started (command : string) (cmds : list string) : bool :=
  existsb (String.eqb command) cmds.

(** The command succeeds in [w]. *)
Definition succeeds (w : World) (command : string) (options : ExecOptions)
  : Prop :=
  exists stdout : string, proc w command options = inr stdout.

(** The three reads of [hasUncommittedChanges] print nothing in [w]. *)
Definition clean {P : Helpers.Platform} (w : World) : bool :=
  negb (printed (proc w "git diff --name-only"
                   (Helpers.withShell Helpers.quiet))
        || printed (proc w "git diff --cached --name-only"
                      (Helpers.withShell Helpers.quiet))
        || printed (proc w "git ls-files --others --exclude-standard"
                      (Helpers.withShell Helpers.quiet))).

(** [which command], for each of the checks. *)
Definition whichOf (check : CheckRequirements.CommandCheck) : string :=
  "which " +:+ CheckRequirements.command check.

(** The checks up to the first whose command is missing in [w], with it. *)
Fixpoint upToMissing (w : World) (todo : list CheckRequirements.CommandCheck)
  : list CheckRequirements.CommandCheck :=
  match todo with
  | [] => []
  | check :: rest =>
      check :: (if installed w (CheckRequirements.command check)
                then upToMissing w rest else [])
  end.

End Outcomes.

(** * Properties *)

(** ** Strings and arrays *)

Module JSFacts.

Lemma app_cons (c : ascii) (s t : string) :
  String c s +:+ t = String c (s +:+ t).
Proof. reflexivity. Qed.

Lemma app_empty (t : string) : EmptyString +:+ t = t.
Proof. reflexivity. Qed.

Lemma length_nonneg (s : string) : 0 <= JS.length s.
Proof. unfold JS.length. lia. Qed.

Lemma length_app (s t : string) :
  JS.length (s +:+ t) = JS.length s + JS.length t.
Proof.
  unfold JS.length. induction s as [|c s IH].
  - rewrite app_empty. simpl. lia.
  - rewrite app_cons. simpl String.length. lia.
Qed.

Lemma substring_length (s : string) (n m : nat) :
  String.length (String.substring n m s)
  = Nat.min m (String.length s - n).
Proof.
  revert n m. induction s as [|c s IH]; intros n m.
  - destruct n, m; reflexivity.
  - destruct n as [|n].
    + destruct m as [|m]; simpl; [reflexivity|].
      rewrite IH. rewrite Nat.sub_0_r. reflexivity.
    + simpl. apply IH.
Qed.

(** [s.substring(0, e)] has [min e s.length] characters. *)
Lemma length_substring_0 (s : string) (e : Z) :
  0 <= e -> JS.length (JS.substring s 0 e) = Z.min e (JS.length s).
Proof.
  intros He. unfold JS.substring, JS.clamp.
  pose proof (length_nonneg s) as Hs.
  replace (Z.min (Z.max 0 (Z.min 0 (JS.length s)))
             (Z.max 0 (Z.min e (JS.length s)))) with 0 by lia.
  replace (Z.max (Z.max 0 (Z.min 0 (JS.length s)))
             (Z.max 0 (Z.min e (JS.length s))) - 0)
    with (Z.min e (JS.length s)) by lia.
  unfold JS.length in *. rewrite substring_length. lia.
Qed.

Lemma substring_app (s t : string) :
  String.substring (String.length s) (String.length t) (s +:+ t) = t.
Proof.
  induction s as [|c s IH].
  - rewrite app_empty. simpl. induction t as [|d t IHt]; simpl;
      [reflexivity | now rewrite IHt].
  - rewrite app_cons. simpl. exact IH.
Qed.

Lemma endsWith_app (s t : string) : JS.endsWith (s +:+ t) t = true.
Proof.
  unfold JS.endsWith.
  assert (Hlen : String.length (s +:+ t)
                 = (String.length s + String.length t)%nat).
  { pose proof (length_app s t) as H. unfold JS.length in H. lia. }
  rewrite Hlen.
  replace (String.length s + String.length t - String.length t)%nat
    with (String.length s) by lia.
  rewrite substring_app, String.eqb_refl.
  rewrite andb_true_r. apply Nat.leb_le. lia.
Qed.

(** [a.slice(0, n)] keeps the first [n] elements. *)
Lemma slice_0 {A} (l : list A) (n : Z) :
  0 <= n -> JS.slice l 0 n = take (Z.to_nat n) l.
Proof.
  intros Hn. unfold JS.slice, JS.rel, JS.alength.
  destruct (0 <? 0) eqn:E0; [lia|].
  destruct (n <? 0) eqn:En; [lia|].
  replace (Z.to_nat (Z.min 0 (Z.of_nat (List.length l)))) with 0%nat by lia.
  rewrite drop_0.
  destruct (Z.le_ge_cases n (Z.of_nat (List.length l))) as [H|H].
  - f_equal. lia.
  - rewrite !take_ge; [reflexivity| |]; lia.
Qed.


(** *** Lines *)

Example split_example :
  JS.split ("a" +:+ JS.nl +:+ JS.nl +:+ "b" +:+ JS.nl) "010"
  = ["a"; EmptyString; "b"; EmptyString].
Proof. reflexivity. Qed.

Example join_example :
  JS.join ["a"; EmptyString; "b"] JS.nl
  = "a" +:+ JS.nl +:+ JS.nl +:+ "b".
Proof. reflexivity. Qed.

Example trim_example :
  JS.trim ("  sk-ant " +:+ JS.nl) = "sk-ant"
  /\ JS.trim ("   " +:+ JS.nl) = EmptyString.
Proof. split; reflexivity. Qed.

Lemma split_nonempty (s : string) : JS.split s "010" <> [].
Proof.
  destruct s as [|c s]; simpl; [discriminate|].
  destruct (Ascii.eqb c "010"); [discriminate|].
  destruct (JS.split s "010"); discriminate.
Qed.

Lemma split_lines_noNl (s : string) :
  Forall (fun line => JS.noNl line = true) (JS.split s "010").
Proof.
  induction s as [|c s IH]; simpl.
  - repeat constructor.
  - destruct (Ascii.eqb c "010") eqn:E.
    + constructor; [reflexivity | exact IH].
    + destruct (JS.split s "010") as [|line lines].
      * constructor; [simpl; now rewrite E | constructor].
      * inversion IH; subst. constructor; [|assumption].
        simpl. now rewrite E.
Qed.

Lemma split_noNl (s : string) :
  JS.noNl s = true -> JS.split s "010" = [s].
Proof.
  induction s as [|c s IH]; simpl; [reflexivity|].
  destruct (Ascii.eqb c "010"); [discriminate|].
  simpl. intros H. now rewrite (IH H).
Qed.

Lemma split_app_nl (x s : string) :
  JS.noNl x = true ->
  JS.split (x +:+ JS.nl +:+ s) "010" = x :: JS.split s "010".
Proof.
  induction x as [|c x IH]; intros Hx.
  - reflexivity.
  - rewrite app_cons. simpl in *.
    destruct (Ascii.eqb c "010"); [discriminate|]. simpl in Hx.
    now rewrite (IH Hx).
Qed.

(** Splitting what [join] made of lines gives the lines back. *)
Lemma split_join (lines : list string) :
  lines <> [] ->
  Forall (fun line => JS.noNl line = true) lines ->
  JS.split (JS.join lines JS.nl) "010" = lines.
Proof.
  induction lines as [|x rest IH]; intros Hne Hall; [congruence|].
  inversion Hall as [|? ? Hx Hrest]; subst.
  destruct rest as [|y rest'].
  - simpl. now apply split_noNl.
  - change (JS.join (x :: y :: rest') JS.nl)
      with (x +:+ JS.nl +:+ JS.join (y :: rest') JS.nl).
    rewrite (split_app_nl _ _ Hx). f_equal. apply IH; [discriminate|assumption].
Qed.

(** Joining the lines of a string gives the string back. *)
Lemma join_split (s : string) : JS.join (JS.split s "010") JS.nl = s.
Proof.
  induction s as [|c s IH]; [reflexivity|]. simpl.
  destruct (Ascii.eqb c "010") eqn:E.
  - apply Ascii.eqb_eq in E. subst c.
    pose proof (split_nonempty s) as Hne.
    destruct (JS.split s "010") as [|l ls]; [congruence|].
    change (JS.join (EmptyString :: l :: ls) JS.nl)
      with (EmptyString +:+ JS.nl +:+ JS.join (l :: ls) JS.nl).
    rewrite IH. reflexivity.
  - pose proof (split_nonempty s) as Hne.
    destruct (JS.split s "010") as [|l ls]; [congruence|].
    destruct ls as [|l' ls'].
    + simpl in *. now rewrite IH.
    + change (JS.join (String c l :: l' :: ls') JS.nl)
        with (String c l +:+ JS.nl +:+ JS.join (l' :: ls') JS.nl).
      change (JS.join (l :: l' :: ls') JS.nl)
        with (l +:+ JS.nl +:+ JS.join (l' :: ls') JS.nl) in IH.
      rewrite app_cons, IH. reflexivity.
Qed.

Lemma join_cons_length (x : string) (rest : list string) :
  JS.length (JS.join (x :: rest) JS.nl)
  = JS.length x
    + match rest with
      | [] => 0
      | _ :: _ => 1 + JS.length (JS.join rest JS.nl)
      end.
Proof.
  destruct rest as [|y rest']; [simpl; lia|].
  change (JS.join (x :: y :: rest') JS.nl)
    with (x +:+ JS.nl +:+ JS.join (y :: rest') JS.nl).
  rewrite !length_app. reflexivity.
Qed.

(** The lines kept by a filter, joined, are no longer than all the lines
    joined. *)
Lemma join_filter_length (keep : string -> bool) (lines : list string) :
  JS.length (JS.join (List.filter keep lines) JS.nl)
  <= JS.length (JS.join lines JS.nl).
Proof.
  induction lines as [|x rest IH]; [simpl; lia|].
  rewrite (join_cons_length x rest). simpl List.filter.
  pose proof (length_nonneg x) as Hx.
  pose proof (length_nonneg (JS.join rest JS.nl)) as Hrest.
  destruct (keep x).
  - rewrite join_cons_length.
    destruct (List.filter keep rest) as [|y kept] eqn:E.
    + destruct rest; lia.
    + destruct rest as [|z rest']; [discriminate|].
      apply Z.add_le_mono_l, Z.add_le_mono_l, IH.
  - destruct rest as [|z rest']; [change (0 <= JS.length x + 0); lia|].
    etrans; [exact IH | lia].
Qed.

End JSFacts.

(** ** The truncation policies *)

Module DiffSpec.
Import Diff JSFacts.

Lemma commitMarker_length : JS.length commitMarker = 30.
Proof. reflexivity. Qed.

Lemma prMarker_length : JS.length prMarker = 51.
Proof. reflexivity. Qed.

(** A line that starts with [+++] or [---] passes both filters of the
    commit policy: it is kept as a header line and counts among the change
    lines as well. *)
Lemma file_marks_are_headers_and_changes (line : string) :
  JS.startsWith line "+++" = true \/ JS.startsWith line "---" = true ->
  isCommitHeader line = true /\ isChange line = true.
Proof.
  unfold isCommitHeader, isChange, JS.startsWith.
  destruct line as [|c1 [|c2 [|c3 rest]]]; simpl; intros [H|H];
    try discriminate;
    repeat match type of H with
           | (if ?d then _ else _) = true =>
               destruct d; [subst|discriminate]
           end;
    try discriminate;
    destruct rest; split; simpl; rewrite ?orb_true_r; reflexivity.
Qed.

(** The buckets of the PR policy: a change line goes to the last
    [diff --git] line seen, lines before the first one are dropped, and a
    header seen again empties its bucket in place. *)
Example bucketLines_example :
  bucketLines ["+early"; "diff --git a/x b/x"; "+a"; " context"; "-b";
               "diff --git a/y b/y"; "+++ b/y"; "diff --git a/x b/x"; "+z"]
  = [("diff --git a/x b/x", ["+z"]); ("diff --git a/y b/y", ["+++ b/y"])].
Proof. reflexivity. Qed.

(** The structured path of the PR policy on one file with 12,000 added
    lines: the header, a blank line, the section with 20 lines, the
    marker. *)
Example limitDiffForPR_example :
  limitDiffForPR Fixtures.manyAddedLines
  = "diff --git a/f b/f" +:+ JS.nl +:+ JS.nl
    +:+ JS.nl +:+ "diff --git a/f b/f" +:+ JS.nl
    +:+ JS.join (List.repeat "+x" 20) JS.nl +:+ JS.nl
    +:+ prMarker.
Proof. vm_compute. reflexivity. Qed.

(** The commit policy, case by case. *)
Lemma limitDiffForCommit_cases (diff : string) :
  (JS.length diff <= 15000 /\ limitDiffForCommit diff = diff)
  \/ (15000 < JS.length diff /\ JS.length (commitLimitedDiff diff) <= 15000
      /\ limitDiffForCommit diff = commitLimitedDiff diff)
  \/ (15000 < JS.length diff /\ 15000 < JS.length (commitLimitedDiff diff)
      /\ limitDiffForCommit diff
         = JS.substring diff 0 15000 +:+ commitMarker).
Proof.
  unfold limitDiffForCommit.
  destruct (JS.length diff <=? 15000) eqn:E1.
  - left. apply Z.leb_le in E1. auto.
  - apply Z.leb_gt in E1. right.
    destruct (JS.length (commitLimitedDiff diff) <=? 15000) eqn:E2.
    + left. apply Z.leb_le in E2. auto.
    + right. apply Z.leb_gt in E2. auto.
Qed.

(** The PR policy, case by case. *)
Lemma limitDiffForPR_cases (diff : string) :
  (JS.length diff <= 30000 /\ limitDiffForPR diff = diff)
  \/ (100000 < JS.length diff
      /\ limitDiffForPR diff = JS.substring diff 0 30000 +:+ prMarker)
  \/ (30000 < JS.length diff <= 100000
      /\ limitDiffForPR diff = prLimitedDiff diff +:+ prMarker).
Proof.
  unfold limitDiffForPR, limitDiffForPR_w.
  destruct (JS.length diff <=? 30000) eqn:E1.
  - left. apply Z.leb_le in E1. auto.
  - apply Z.leb_gt in E1. right.
    destruct (JS.length diff >? 100000) eqn:E2.
    + left. apply Z.gtb_lt in E2. auto.
    + right. rewrite Z.gtb_ltb in E2. apply Z.ltb_ge in E2.
      split; [lia | reflexivity].
Qed.

(** The sections never push [limitedDiff] over [maxChars]: what the loop
    returns is no longer than the larger of [maxChars] and what it
    started from. *)
Lemma appendSections_length (entries : bucket) (maxChars : Z) :
  forall limitedDiff : string,
    JS.length
      (appendSections entries limitedDiff (JS.length limitedDiff) maxChars)
    <= Z.max maxChars (JS.length limitedDiff).
Proof.
  induction entries as [|[file changes] rest IH]; intros limitedDiff.
  - simpl. lia.
  - simpl.
    destruct (JS.length limitedDiff + JS.length (prSection file changes)
              >? maxChars) eqn:E.
    + lia.
    + rewrite Z.gtb_ltb in E. apply Z.ltb_ge in E.
      rewrite <- length_app.
      etrans; [apply IH|]. rewrite length_app. lia.
Qed.

Lemma prLimitedDiff_length (diff : string) :
  JS.length (prLimitedDiff diff)
  <= Z.max 30000 (JS.length (prHeaderBlock diff)).
Proof. unfold prLimitedDiff. apply appendSections_length. Qed.

Lemma In_take {A} (x : A) (n : nat) (l : list A) :
  In x (take n l) -> In x l.
Proof.
  revert n. induction l as [|y l IH]; intros [|n]; simpl; try tauto.
  intros [->|H]; [now left | right; eauto].
Qed.

(** What the commit policy builds before it looks at the ceiling: the
    header lines, then the first 200 change lines. *)
Lemma commitLimitedLines_eq (diff : string) :
  commitLimitedLines diff
  = List.filter isCommitHeader (JS.split diff "010")
    ++ take 200 (List.filter isChange (JS.split diff "010")).
Proof.
  unfold commitLimitedLines. rewrite slice_0 by lia. reflexivity.
Qed.

(** C6: both policies return a diff within their ceiling unchanged: at most
    15,000 characters for the commit policy, at most 30,000 for the PR
    policy. *)
Theorem small_diff_unchanged (diff : string) :
  (JS.length diff <= 15000 -> limitDiffForCommit diff = diff)
  /\ (JS.length diff <= 30000 -> limitDiffForPR diff = diff).
Proof.
  split; intros Hlen.
  - destruct (limitDiffForCommit_cases diff) as [[_ H]|[[H _]|[H _]]];
      [exact H | lia | lia].
  - destruct (limitDiffForPR_cases diff) as [[_ H]|[[H _]|[H _]]];
      [exact H | lia | lia].
Qed.

Lemma small_diff_unchanged_witness :
  JS.length "diff --git a/f b/f" <= 15000
  /\ limitDiffForCommit "diff --git a/f b/f" = "diff --git a/f b/f"
  /\ limitDiffForPR "diff --git a/f b/f" = "diff --git a/f b/f".
Proof.
  assert (H : JS.length "diff --git a/f b/f" <= 15000)
    by (vm_compute; discriminate).
  destruct (small_diff_unchanged "diff --git a/f b/f") as [Hc Hp].
  split; [exact H|]. split; [apply Hc; exact H | apply Hp].
  vm_compute; discriminate.
Defined.

(** C7: a diff of more than 100,000 characters given to the PR policy is
    cut to its first 30,000 characters, followed by the marker; the
    per-file sections are not built (the console shows the line of the
    simple truncation), and the output ends with the marker. *)
Theorem huge_diff_hard_truncated (diff : string) :
  100000 < JS.length diff ->
  limitDiffForPR diff = JS.substring diff 0 30000 +:+ prMarker
  /\ JS.length (JS.substring diff 0 30000) = 30000
  /\ JS.endsWith (limitDiffForPR diff) prMarker = true
  /\ (exists tooLarge,
        fst (limitDiffForPR_w diff)
        = [tooLarge; "🔪 Using simple truncation for very large diff"]).
Proof.
  intros Hlen.
  assert (H : limitDiffForPR diff = JS.substring diff 0 30000 +:+ prMarker).
  { destruct (limitDiffForPR_cases diff) as [[H _]|[[_ H]|[H _]]];
      [lia | exact H | lia]. }
  split; [exact H|]. split; [rewrite length_substring_0; lia|].
  split; [rewrite H; apply endsWith_app|].
  unfold limitDiffForPR_w.
  destruct (JS.length diff <=? 30000) eqn:E1;
    [apply Z.leb_le in E1; lia|].
  destruct (JS.length diff >? 100000) eqn:E2;
    [|rewrite Z.gtb_ltb in E2; apply Z.ltb_ge in E2; lia].
  eexists. reflexivity.
Qed.

Lemma huge_diff_hard_truncated_witness :
  100000 < JS.length Fixtures.hugeDiff
  /\ limitDiffForPR Fixtures.hugeDiff
     = JS.substring Fixtures.hugeDiff 0 30000 +:+ prMarker
  /\ JS.endsWith (limitDiffForPR Fixtures.hugeDiff) prMarker = true.
Proof.
  assert (H : 100000 < JS.length Fixtures.hugeDiff)
    by (vm_compute; reflexivity).
  destruct (huge_diff_hard_truncated Fixtures.hugeDiff H)
    as (Heq & _ & Hend & _).
  split; [exact H|]. split; [exact Heq | exact Hend].
Defined.

(** C1, as stated, fails: hard truncation keeps 15,000 (30,000) characters
    of the diff and then appends the marker.  One added line of 15,001
    characters comes back as 15,030 characters from the commit policy, and
    100,001 characters come back as 30,051 from the PR policy. *)
Lemma hard_truncation_exceeds_ceiling :
  JS.length (limitDiffForCommit Fixtures.longAddedLine) = 15030
  /\ ~ JS.length (limitDiffForCommit Fixtures.longAddedLine) <= 15000
  /\ JS.length (limitDiffForPR Fixtures.hugeDiff) = 30051
  /\ ~ JS.length (limitDiffForPR Fixtures.hugeDiff) <= 30000.
Proof.
  assert (Hc : JS.length (limitDiffForCommit Fixtures.longAddedLine) = 15030)
    by (vm_compute; reflexivity).
  assert (Hp : JS.length (limitDiffForPR Fixtures.hugeDiff) = 30051)
    by (vm_compute; reflexivity).
  rewrite Hc, Hp. repeat split; lia.
Qed.

(** C1, amended: the commit policy's output has at most 15,030 characters,
    the ceiling and the 30 characters of the marker, and at most 15,000
    unless it is the hard truncation; the PR policy's output has at most
    30,051 characters, the ceiling and the 51 characters of the marker,
    whenever the header block of a diff that takes the structured path
    fits the ceiling. *)
Theorem output_length_bounds (diff : string) :
  JS.length (limitDiffForCommit diff) <= 15030
  /\ (limitDiffForCommit diff <> JS.substring diff 0 15000 +:+ commitMarker ->
      JS.length (limitDiffForCommit diff) <= 15000)
  /\ ((30000 < JS.length diff <= 100000 ->
       JS.length (prHeaderBlock diff) <= 30000) ->
      JS.length (limitDiffForPR diff) <= 30051).
Proof.
  pose proof (length_nonneg diff) as Hd.
  assert (Hsub15 : JS.length (JS.substring diff 0 15000) <= 15000)
    by (rewrite length_substring_0; lia).
  assert (Hsub30 : JS.length (JS.substring diff 0 30000) <= 30000)
    by (rewrite length_substring_0; lia).
  split; [|split].
  - destruct (limitDiffForCommit_cases diff)
      as [[H ->]|[(_ & H & ->)|(_ & _ & ->)]]; [lia | lia |].
    rewrite length_app, commitMarker_length. lia.
  - intros Hne.
    destruct (limitDiffForCommit_cases diff)
      as [[H E]|[(_ & H & E)|(_ & _ & E)]];
      [rewrite E; lia | rewrite E; lia | contradiction].
  - intros Hhdr.
    destruct (limitDiffForPR_cases diff) as [[H ->]|[[_ ->]|[H ->]]].
    + lia.
    + rewrite length_app, prMarker_length. lia.
    + rewrite length_app, prMarker_length.
      pose proof (prLimitedDiff_length diff). specialize (Hhdr H). lia.
Qed.

Lemma output_length_bounds_witness :
  (30000 < JS.length Fixtures.manyAddedLines <= 100000 ->
   JS.length (prHeaderBlock Fixtures.manyAddedLines) <= 30000)
  /\ JS.length (limitDiffForCommit Fixtures.manyAddedLines) <= 15030
  /\ JS.length (limitDiffForPR Fixtures.manyAddedLines) <= 30051.
Proof.
  assert (H : 30000 < JS.length Fixtures.manyAddedLines <= 100000 ->
              JS.length (prHeaderBlock Fixtures.manyAddedLines) <= 30000)
    by (intros _; vm_compute; discriminate).
  destruct (output_length_bounds Fixtures.manyAddedLines) as (Hc & _ & Hp).
  split; [exact H|]. split; [exact Hc | exact (Hp H)].
Defined.

(** The header block is no longer than the diff and its two line breaks. *)
Lemma prHeaderBlock_length (diff : string) :
  JS.length (prHeaderBlock diff) <= JS.length diff + 2.
Proof.
  unfold prHeaderBlock. rewrite !length_app.
  pose proof (join_filter_length isPRHeader (JS.split diff "010")) as H.
  rewrite join_split in H. change (JS.length JS.nl) with 1. lia.
Qed.

(** Without a condition: the output of the PR policy is no longer than the
    marker after the larger of the ceiling and the header block, hence
    never longer than 100,053 characters. *)
Lemma limitDiffForPR_length (diff : string) :
  JS.length (limitDiffForPR diff)
  <= Z.max 30000 (JS.length (prHeaderBlock diff)) + 51
  /\ JS.length (limitDiffForPR diff) <= 100053.
Proof.
  pose proof (length_nonneg diff) as Hd.
  pose proof (prHeaderBlock_length diff) as Hh.
  destruct (limitDiffForPR_cases diff) as [[H ->]|[[_ ->]|[H ->]]].
  - lia.
  - rewrite length_app, prMarker_length, length_substring_0; lia.
  - rewrite length_app, prMarker_length.
    pose proof (prLimitedDiff_length diff). lia.
Qed.

(** The condition on the header block is needed: the header lines are all
    kept, whatever their length.  3,000 header lines, 44,999 characters in
    all, come back as 45,052 characters. *)
Lemma header_block_over_ceiling :
  30000 < JS.length Fixtures.onlyHeaders <= 100000
  /\ JS.length (prHeaderBlock Fixtures.onlyHeaders) = 45001
  /\ JS.length (limitDiffForPR Fixtures.onlyHeaders) = 45052.
Proof.
  assert (Hlen : JS.length Fixtures.onlyHeaders = 44999)
    by (vm_compute; reflexivity).
  rewrite Hlen. split; [lia|]. split; vm_compute; reflexivity.
Qed.

(** C3, as stated, fails: the header lines and the change lines are not a
    partition of the lines.  In this diff the file mark [--- a/f] is a
    header line and a change line, and the context line is neither; the
    mark, one line of the diff, stands twice in the output, and the output
    holds 202 lines that pass the filter of the change lines. *)
Lemma lines_are_not_partitioned :
  let diff := Fixtures.markedDiff in
  let lines := JS.split diff "010" in
  let kept := JS.split (limitDiffForCommit diff) "010" in
  15000 < JS.length diff
  /\ count_occ String.string_dec lines "--- a/f" = 1%nat
  /\ isCommitHeader "--- a/f" = true
  /\ isChange "--- a/f" = true
  /\ count_occ String.string_dec lines " context" = 1%nat
  /\ isCommitHeader " context" = false
  /\ isChange " context" = false
  /\ count_occ String.string_dec kept "--- a/f" = 2%nat
  /\ count_occ String.string_dec kept " context" = 0%nat
  /\ List.length (List.filter isChange kept) = 202%nat.
Proof. vm_compute. repeat split. Qed.

(** C3, amended: for a diff over the 15,000-character ceiling the commit
    policy builds its structured output from every header line of the
    diff, in order, followed by at most 200 lines, each a change line of
    the diff; it returns that output when it fits the ceiling, and the
    hard truncation with its marker exactly when it does not.  The header
    lines are the lines that pass the first filter and the change lines
    those that pass the second: two families, not a partition. *)
Theorem commit_structured_output (diff : string) :
  15000 < JS.length diff ->
  let lines := JS.split diff "010" in
  let headers := List.filter isCommitHeader lines in
  let sample := take 200 (List.filter isChange lines) in
  commitLimitedLines diff = headers ++ sample
  /\ (forall line, In line lines -> isCommitHeader line = true ->
                   In line (commitLimitedLines diff))
  /\ (List.length sample <= 200)%nat
  /\ (forall line, In line sample ->
                   isChange line = true /\ In line lines)
  /\ (commitLimitedLines diff <> [] ->
      JS.split (commitLimitedDiff diff) "010" = commitLimitedLines diff)
  /\ (JS.length (commitLimitedDiff diff) <= 15000 ->
      limitDiffForCommit diff = commitLimitedDiff diff)
  /\ (limitDiffForCommit diff = JS.substring diff 0 15000 +:+ commitMarker
      <-> 15000 < JS.length (commitLimitedDiff diff)).
Proof.
  intros Hlen lines headers sample.
  assert (Hlines : commitLimitedLines diff = headers ++ sample)
    by apply commitLimitedLines_eq.
  split; [exact Hlines|]. split; [|split; [|split; [|split; [|split]]]].
  - intros line Hin Hh. rewrite Hlines. apply in_or_app. left.
    apply filter_In. auto.
  - apply firstn_le_length.
  - intros line Hin. apply In_take in Hin. apply filter_In in Hin. tauto.
  - intros Hne. apply split_join; [exact Hne|].
    rewrite Hlines. apply Forall_app. split.
    + apply Forall_forall. intros l Hl.
      apply list_elem_of_In, filter_In in Hl. destruct Hl as [Hl _].
      pose proof (split_lines_noNl diff) as Hall.
      rewrite Forall_forall in Hall. apply Hall, list_elem_of_In, Hl.
    + apply Forall_forall. intros l Hl.
      apply list_elem_of_In, In_take, filter_In in Hl. destruct Hl as [Hl _].
      pose proof (split_lines_noNl diff) as Hall.
      rewrite Forall_forall in Hall. apply Hall, list_elem_of_In, Hl.
  - intros Hfit.
    destruct (limitDiffForCommit_cases diff)
      as [[H _]|[(_ & _ & E)|(_ & H & _)]]; [lia | exact E | lia].
  - pose proof (length_nonneg diff) as Hd.
    destruct (limitDiffForCommit_cases diff)
      as [[H _]|[(_ & H & E)|(_ & H & E)]]; [lia | |].
    + split; [|lia]. intros Heq. rewrite E in Heq.
      apply (f_equal JS.length) in Heq.
      rewrite length_app, commitMarker_length, length_substring_0 in Heq;
        lia.
    + split; [intros _; exact H | intros _; exact E].
Qed.

Lemma commit_structured_output_witness :
  15000 < JS.length Fixtures.manyAddedLines
  /\ commitLimitedLines Fixtures.manyAddedLines
     = "diff --git a/f b/f" :: List.repeat "+x" 200
  /\ limitDiffForCommit Fixtures.manyAddedLines
     = commitLimitedDiff Fixtures.manyAddedLines.
Proof.
  assert (H : 15000 < JS.length Fixtures.manyAddedLines)
    by (vm_compute; reflexivity).
  destruct (commit_structured_output Fixtures.manyAddedLines H)
    as (Hlines & _ & _ & _ & _ & Hfit & _).
  split; [exact H|]. split.
  - rewrite Hlines. vm_compute. reflexivity.
  - apply Hfit. vm_compute. discriminate.
Defined.

End DiffSpec.

(** ** Runs *)

Module SysFacts.
Import Sys Observe.

Lemma result_eta {R} (r : result R) :
  r = {| out := out r; trace := trace r; final := final r |}.
Proof. destruct r; reflexivity. Qed.

(** Running [p ≫= f] is running [p], then [f] on its value. *)
Lemma run_bind {A B} (p : prog A) (f : A -> prog B) (w : World) :
  run (bind p f) w = extend (run p w) (fun a => run (f a)).
Proof.
  revert w. induction p as [a|e|c|X ev k IH]; intros w.
  - unfold extend. simpl. apply result_eta.
  - reflexivity.
  - reflexivity.
  - simpl. destruct (handle ev w) as [x w1]. rewrite IH.
    unfold extend. simpl. destruct (out (run (k x) w1)); reflexivity.
Qed.

Lemma run_mbind {A B} (p : prog A) (f : A -> prog B) (w : World) :
  run (p ≫= f) w = extend (run p w) (fun a => run (f a)).
Proof. apply run_bind. Qed.

(** Running [try { p } catch { h }] is running [p], then [h] on what it
    threw. *)
Lemma run_try_catch {A} (p : prog A) (h : JsError -> prog A) (w : World) :
  run (try_catch p h) w = recover (run p w) (fun e => run (h e)).
Proof.
  revert w. induction p as [a|e|c|X ev k IH]; intros w.
  - reflexivity.
  - unfold recover. simpl. apply result_eta.
  - reflexivity.
  - simpl. destruct (handle ev w) as [x w1]. rewrite IH.
    unfold recover. destruct (run (k x) w1) as [o t f]. simpl.
    destruct o; reflexivity.
Qed.

Lemma handle_same_outside {X} (ev : event X) (w : World) :
  same_outside w (snd (handle ev w)).
Proof.
  unfold same_outside.
  destruct ev; simpl; repeat case_match; simpl; destruct w; reflexivity.
Qed.

(** A run changes nothing of the world but its files. *)
Lemma run_same_outside {R} (p : prog R) (w : World) :
  same_outside w (final (run p w)).
Proof.
  revert w. induction p as [a|e|c|X ev k IH]; intros w;
    try (destruct w; reflexivity).
  simpl. pose proof (handle_same_outside ev w) as Hh.
  destruct (handle ev w) as [x w1]. simpl in *.
  specialize (IH x w1). unfold same_outside in *.
  rewrite IH at 1. rewrite Hh. reflexivity.
Qed.

Lemma run_proc {R} (p : prog R) (w : World) :
  proc (final (run p w)) = proc w.
Proof. rewrite (run_same_outside p w). reflexivity. Qed.

Lemma run_fault {R} (p : prog R) (w : World) :
  fault (final (run p w)) = fault w.
Proof. rewrite (run_same_outside p w). reflexivity. Qed.

Lemma run_tmpdir {R} (p : prog R) (w : World) :
  tmpdir (final (run p w)) = tmpdir w.
Proof. rewrite (run_same_outside p w). reflexivity. Qed.

Lemma run_now {R} (p : prog R) (w : World) :
  now (final (run p w)) = now w.
Proof. rewrite (run_same_outside p w). reflexivity. Qed.

Lemma same_outside_refl (w : World) : same_outside w w.
Proof. destruct w; reflexivity. Qed.

Lemma same_outside_trans (w1 w2 w3 : World) :
  same_outside w1 w2 -> same_outside w2 w3 -> same_outside w1 w3.
Proof.
  unfold same_outside. intros H12 H23. rewrite H23. rewrite H12 at 1.
  reflexivity.
Qed.

Lemma same_outside_fields (w w' : World) :
  same_outside w w' ->
  proc w' = proc w /\ fault w' = fault w /\ now w' = now w
  /\ tmpdir w' = tmpdir w.
Proof. intros ->. repeat split. Qed.

Lemma extend_same_outside {A B} (r : result A)
    (next : A -> World -> result B) (w : World) :
  same_outside w (final r) ->
  (forall a w', same_outside w' (final (next a w'))) ->
  same_outside w (final (extend r next)).
Proof.
  intros Hr Hnext. unfold extend. destruct (out r); simpl; try exact Hr.
  eapply same_outside_trans; [exact Hr | apply Hnext].
Qed.

Lemma extend_ext {A B} (r : result A) (f g : A -> World -> result B) :
  (forall a w, f a w = g a w) -> extend r f = extend r g.
Proof.
  intros H. unfold extend. destruct (out r); [rewrite H|..]; reflexivity.
Qed.

Lemma extend_assoc {A B C} (r : result A) (f : A -> World -> result B)
    (g : B -> World -> result C) :
  extend (extend r f) g = extend r (fun a w => extend (f a w) g).
Proof.
  unfold extend. destruct (out r); simpl; [|reflexivity..].
  destruct (out (f r0 (final r))); simpl; try reflexivity.
  now rewrite app_assoc.
Qed.

(** *** Commands *)

Lemma only_bind (ok : string -> Prop) {A B} (p : prog A) (f : A -> prog B) :
  only ok p -> (forall a, only ok (f a)) -> only ok (bind p f).
Proof.
  intros Hp Hf. induction Hp as [a|e|c|X ev k Hev Hk IH]; simpl.
  - apply Hf.
  - constructor.
  - constructor.
  - constructor; [exact Hev | exact IH].
Qed.

Lemma only_mbind (ok : string -> Prop) {A B} (p : prog A)
    (f : A -> prog B) :
  only ok p -> (forall a, only ok (f a)) -> only ok (p ≫= f).
Proof. apply only_bind. Qed.

Lemma only_try_catch (ok : string -> Prop) {A} (p : prog A)
    (h : JsError -> prog A) :
  only ok p -> (forall e, only ok (h e)) -> only ok (try_catch p h).
Proof.
  intros Hp Hh. induction Hp as [a|e|c|X ev k Hev Hk IH]; simpl.
  - constructor.
  - apply Hh.
  - constructor.
  - constructor; [exact Hev | exact IH].
Qed.

(** What [only] promises holds of every run. *)
Lemma only_run (ok : string -> Prop) {R} (p : prog R) :
  only ok p -> forall w, Forall ok (commands (trace (run p w))).
Proof.
  intros Hp. induction Hp as [a|e|c|X ev k Hev Hk IH]; intros w;
    try (simpl; constructor).
  simpl. destruct (handle ev w) as [x w1]. simpl.
  specialize (IH x w1). unfold commands in *. simpl.
  destruct ev; simpl; try exact IH. constructor; assumption.
Qed.

End SysFacts.

(** ** Authentication resolution *)

Module AuthSpec.
Import Sys Helpers Observe SysFacts.

Section WithPlatform.
Context {P : Platform}.

#[local] Arguments readStoredKey : simpl never.
#[local] Arguments saveKey : simpl never.

Lemma truthy_opt_Some (o : option string) :
  JS.truthy_opt o = true -> exists k, o = Some k /\ JS.truthy k = true.
Proof. destruct o as [k|]; simpl; [eauto | discriminate]. Qed.

Lemma truthy_nonempty (s : string) :
  JS.truthy s = true <-> s <> EmptyString.
Proof. destruct s; simpl; split; congruence. Qed.

(** Step 1 yields. *)
Lemma run_env (w : World) :
  envYields w = true ->
  run getAnthropicApiKey w
  = {| out := Done {| method := env_;
                      key := option_map JS.VString
                               (environ w "ANTHROPIC_API_KEY") |};
       trace := [Obs (GetEnv "ANTHROPIC_API_KEY")
                   (environ w "ANTHROPIC_API_KEY")];
       final := w |}.
Proof.
  unfold envYields, getAnthropicApiKey. intros He. cbn. rewrite He.
  reflexivity.
Qed.

(** Step 2 yields. *)
Lemma run_session (w : World) :
  envYields w = false -> probeYields w = true ->
  run getAnthropicApiKey w
  = {| out := Done {| method := claude_cli; key := None |};
       trace := upToProbe w;
       final := w |}.
Proof.
  unfold envYields, probeYields, getAnthropicApiKey, upToProbe.
  intros He Hp. cbn. rewrite He. cbn.
  destruct (proc w "claude --version" (withShell strict)) as [e|v];
    [discriminate|]. reflexivity.
Qed.

(** What the [try] around the stored config returns. *)
Lemma run_readStoredKey (w : World) :
  run (readStoredKey (configPathOf (homedir w))) w
  = {| out := Done (match storedKey w with
                    | Some k => Some {| method := config; key := Some k |}
                    | None => None
                    end);
       trace := [Obs (ReadFile (configPathOf (homedir w)))
                   (fst (handle (ReadFile (configPathOf (homedir w))) w))];
       final := w |}.
Proof.
  unfold readStoredKey, storedKey. cbn.
  destruct (fault w (OpRead (configPathOf (homedir w)))) as [e|]; cbn;
    [reflexivity|].
  destruct (files w !! configPathOf (homedir w)) as [text|]; cbn;
    [|reflexivity].
  destruct (JSON_parse text) as [[|[k|]]|]; cbn; try reflexivity.
  destruct (JS.truthyValue k); reflexivity.
Qed.

(** Step 3 yields. *)
Lemma run_stored (w : World) (k : JS.Value) :
  envYields w = false -> probeYields w = false ->
  storedKey w = Some k ->
  run getAnthropicApiKey w
  = {| out := Done {| method := config; key := Some k |};
       trace := upToConfig w;
       final := w |}.
Proof.
  unfold envYields, probeYields, upToConfig, upToProbe.
  intros He Hp Hk. unfold getAnthropicApiKey. cbn. rewrite He. cbn.
  destruct (proc w "claude --version" (withShell strict)) as [e|v];
    [|discriminate]. cbn.
  pose proof (run_readStoredKey w) as Hr. rewrite Hk in Hr.
  rewrite run_mbind, Hr. reflexivity.
Qed.

(** Saving the key never throws and never exits; when a call of it fails
    the warning is the last event. *)
Lemma run_saveKey (w : World) (apiKey : string) :
  let r := run (saveKey (configPathOf (homedir w)) apiKey) w in
  out r = Done tt
  /\ consulted (trace r) = []
  /\ (canSave w = false -> last (trace r) = Some saveWarning)
  /\ (canSave w = true ->
      files (final r) !! configPathOf (homedir w)
      = Some (JSON_stringify (CObject (Some (JS.VString apiKey))) 2)).
Proof.
  unfold saveKey, canSave. cbn.
  destruct (fault w (OpMkdir (path_dirname (configPathOf (homedir w)))))
    as [e1|]; cbn; [repeat split; congruence|].
  destruct (fault w (OpWrite (configPathOf (homedir w)))) as [e2|]; cbn;
    [repeat split; congruence|].
  destruct (fault w (OpChmod (configPathOf (homedir w)))) as [e3|]; cbn;
    [repeat split; congruence|].
  rewrite lookup_insert_eq. cbn.
  repeat split; try congruence. intros _. apply lookup_insert_eq.
Qed.

(** Step 4: nothing before it yields. *)
Lemma run_prompt (w : World) :
  envYields w = false -> probeYields w = false -> storedKey w = None ->
  run getAnthropicApiKey w
  = if JS.truthy (JS.trim (answer w)) then
      let saved := run (saveKey (configPathOf (homedir w))
                          (JS.trim (answer w))) w in
      {| out := Done {| method := prompt;
                        key := Some (JS.VString (JS.trim (answer w))) |};
         trace := upToAnswer w ++ trace saved;
         final := final saved |}
    else
      {| out := Thrown (Error "API key is required for AI features");
         trace := upToAnswer w;
         final := w |}.
Proof.
  unfold envYields, probeYields, upToAnswer, upToConfig, upToProbe.
  intros He Hp Hk. unfold getAnthropicApiKey. cbn. rewrite He. cbn.
  destruct (proc w "claude --version" (withShell strict)) as [e|v];
    [|discriminate]. cbn.
  pose proof (run_readStoredKey w) as Hr. rewrite Hk in Hr.
  rewrite run_mbind, Hr. unfold extend. cbn.
  destruct (JS.truthy (JS.trim (answer w))); cbn; [|reflexivity].
  rewrite run_mbind. unfold extend.
  destruct (run_saveKey w (JS.trim (answer w))) as (Hout & _).
  cbn in Hout. rewrite Hout. cbn. rewrite app_nil_r. reflexivity.
Qed.

(** The sources a run consults, case by case. *)
Lemma consulted_cases (w : World) :
  consulted (trace (run getAnthropicApiKey w))
  = EnvVar ::
    (if envYields w then []
     else SessionProbe ::
          (if probeYields w then []
           else ConfigFile ::
                match storedKey w with
                | Some _ => []
                | None => [Terminal]
                end)).
Proof.
  destruct (envYields w) eqn:He; [now rewrite run_env|].
  destruct (probeYields w) eqn:Hp; [now rewrite run_session|].
  destruct (storedKey w) as [k|] eqn:Hk;
    [now rewrite (run_stored w k)|].
  rewrite run_prompt by assumption.
  destruct (JS.truthy (JS.trim (answer w))); [|reflexivity].
  cbn [trace]. unfold consulted. rewrite omap_app.
  destruct (run_saveKey w (JS.trim (answer w))) as (_ & Hc & _).
  unfold consulted in Hc. cbn in Hc. rewrite Hc. reflexivity.
Qed.

(** C2, amended: the four sources are consulted in the fixed order
    variable, session probe, config file, terminal, each only when the
    one before yielded nothing; and when the variable holds a non-empty
    key the result is method ['env'] with that key, the lookup of the
    variable is the only event and the world is left as it was. *)
Theorem sources_in_order (w : World) :
  consulted (trace (run getAnthropicApiKey w))
  = EnvVar ::
    (if envYields w then []
     else SessionProbe ::
          (if probeYields w then []
           else ConfigFile ::
                match storedKey w with
                | Some _ => []
                | None => [Terminal]
                end))
  /\ (forall k : string,
        environ w "ANTHROPIC_API_KEY" = Some k -> k <> EmptyString ->
        run getAnthropicApiKey w
        = {| out := Done {| method := env_; key := Some (JS.VString k) |};
             trace := [Obs (GetEnv "ANTHROPIC_API_KEY") (Some k)];
             final := w |}).
Proof.
  split; [apply consulted_cases|].
  intros k Hk Hne. rewrite run_env.
  - rewrite Hk. reflexivity.
  - unfold envYields. rewrite Hk. now apply truthy_nonempty.
Qed.

(** C8, amended: whenever resolution returns, the key is [null] exactly
    when the method is ['claude-cli']; with the methods ['env'] and
    ['prompt'] it is a string, and not the empty one; with the method
    ['config'] it is the value the config file holds for the key, a truthy
    value of whatever type, so not the empty string when it is a string. *)
Theorem key_null_iff_session (w : World) (auth : AuthResult) :
  out (run getAnthropicApiKey w) = Done auth ->
  (key auth = None <-> method auth = claude_cli)
  /\ (method auth = env_ \/ method auth = prompt ->
      exists k, key auth = Some (JS.VString k) /\ k <> EmptyString)
  /\ (method auth = config ->
      exists v, key auth = Some v
                /\ storedKey w = Some v
                /\ JS.truthyValue v = true
                /\ v <> JS.VString EmptyString).
Proof.
  destruct (envYields w) eqn:He.
  { rewrite run_env by assumption. cbn. intros [= <-]. cbn.
    apply truthy_opt_Some in He as (k & -> & Hk).
    apply truthy_nonempty in Hk. cbn.
    split; [split; discriminate|]. split; [eauto | discriminate]. }
  destruct (probeYields w) eqn:Hp.
  { rewrite run_session by assumption. cbn. intros [= <-]. cbn.
    split; [tauto|]. split; [intros [|]; discriminate | discriminate]. }
  destruct (storedKey w) as [v|] eqn:Hv.
  { rewrite (run_stored w v) by assumption. cbn. intros [= <-]. cbn.
    assert (Ht : JS.truthyValue v = true).
    { unfold storedKey in Hv. repeat case_match; try discriminate.
      injection Hv as <-. assumption. }
    split; [split; discriminate|].
    split; [intros [|]; discriminate|].
    intros _. exists v. repeat split; try assumption.
    intros ->. discriminate Ht. }
  rewrite run_prompt by assumption.
  destruct (JS.truthy (JS.trim (answer w))) eqn:Ht; cbn;
    [|discriminate].
  intros [= <-]. cbn. apply truthy_nonempty in Ht.
  split; [split; discriminate|]. split; [eauto | discriminate].
Qed.

(** C9: when the first three sources yield nothing, an empty trimmed
    line makes resolution throw 'API key is required for AI features';
    a non-empty one makes it return method ['prompt'] with the trimmed
    line, whether or not the key could be saved, and a failed save shows
    as a warning, the last event of the run. *)
Theorem prompt_path (w : World) :
  envYields w = false -> probeYields w = false -> storedKey w = None ->
  let r := run getAnthropicApiKey w in
  (JS.trim (answer w) = EmptyString ->
   out r = Thrown (Error "API key is required for AI features"))
  /\ (JS.trim (answer w) <> EmptyString ->
      out r = Done {| method := prompt;
                      key := Some (JS.VString (JS.trim (answer w))) |}
      /\ (canSave w = false -> last (trace r) = Some saveWarning)).
Proof.
  intros He Hp Hk r. subst r. rewrite run_prompt by assumption.
  split; intros Ha.
  - rewrite Ha. reflexivity.
  - apply truthy_nonempty in Ha. rewrite Ha. cbn [out trace].
    split; [reflexivity|]. intros Hsave.
    destruct (run_saveKey w (JS.trim (answer w))) as (_ & _ & Hlast & _).
    specialize (Hlast Hsave). cbn zeta in Hlast.
    rewrite last_app, Hlast. reflexivity.
Qed.

End WithPlatform.

(** C2, as stated, fails: with the variable set to the empty string and a
    session of the AI CLI, resolution goes on to the probe and returns
    method ['claude-cli']. *)
Lemma empty_key_is_skipped :
  environ Fixtures.emptyKeyWorld "ANTHROPIC_API_KEY" = Some EmptyString
  /\ out (run (@getAnthropicApiKey Fixtures.posix) Fixtures.emptyKeyWorld)
     = Done {| method := claude_cli; key := None |}
  /\ consulted
       (trace (run (@getAnthropicApiKey Fixtures.posix)
                 Fixtures.emptyKeyWorld))
     = [EnvVar; SessionProbe].
Proof. repeat split. Qed.

Lemma sources_in_order_witness :
  environ Fixtures.envKeyWorld "ANTHROPIC_API_KEY" = Some "sk-ant-env"
  /\ "sk-ant-env" <> EmptyString
  /\ run (@getAnthropicApiKey Fixtures.posix) Fixtures.envKeyWorld
     = {| out := Done {| method := env_; key := Some (JS.VString "sk-ant-env") |};
          trace := [Obs (GetEnv "ANTHROPIC_API_KEY") (Some "sk-ant-env")];
          final := Fixtures.envKeyWorld |}.
Proof.
  assert (H1 : environ Fixtures.envKeyWorld "ANTHROPIC_API_KEY"
               = Some "sk-ant-env") by reflexivity.
  assert (H2 : "sk-ant-env" <> EmptyString) by discriminate.
  split; [exact H1|]. split; [exact H2|].
  exact (proj2 (@sources_in_order Fixtures.posix Fixtures.envKeyWorld)
           "sk-ant-env" H1 H2).
Defined.

(** C8, as stated, fails: with a config file that holds a number for the
    key and no other source, resolution returns method ['config'] with that
    number as key, which is not a string. *)
Lemma stored_number_is_the_key :
  files Fixtures.numberKeyWorld !! "/home/dev/.gh-claude-tools/config.json"
  = Some Fixtures.numberConfig
  /\ out (run (@getAnthropicApiKey Fixtures.posix) Fixtures.numberKeyWorld)
     = Done {| method := config; key := Some (JS.VOther true "123") |}
  /\ ~ (exists k : string,
          key {| method := config; key := Some (JS.VOther true "123") |}
          = Some (JS.VString k)).
Proof.
  split; [reflexivity|]. split; [vm_compute; reflexivity|].
  intros (k & Hk). discriminate Hk.
Qed.

Lemma key_null_iff_session_witness :
  out (run (@getAnthropicApiKey Fixtures.posix) Fixtures.emptyKeyWorld)
  = Done {| method := claude_cli; key := None |}
  /\ out (run (@getAnthropicApiKey Fixtures.posix) Fixtures.envKeyWorld)
     = Done {| method := env_; key := Some (JS.VString "sk-ant-env") |}
  /\ out (run (@getAnthropicApiKey Fixtures.posix) Fixtures.numberKeyWorld)
     = Done {| method := config; key := Some (JS.VOther true "123") |}
  /\ @storedKey Fixtures.posix Fixtures.numberKeyWorld
     = Some (JS.VOther true "123").
Proof.
  assert (H1 : out (run (@getAnthropicApiKey Fixtures.posix)
                      Fixtures.emptyKeyWorld)
               = Done {| method := claude_cli; key := None |})
    by reflexivity.
  assert (H2 : out (run (@getAnthropicApiKey Fixtures.posix)
                      Fixtures.envKeyWorld)
               = Done {| method := env_;
                         key := Some (JS.VString "sk-ant-env") |})
    by reflexivity.
  assert (H3 : out (run (@getAnthropicApiKey Fixtures.posix)
                      Fixtures.numberKeyWorld)
               = Done {| method := config;
                         key := Some (JS.VOther true "123") |})
    by (vm_compute; reflexivity).
  split; [exact H1|]. split; [exact H2|]. split; [exact H3|].
  destruct (@key_null_iff_session Fixtures.posix _ _ H3) as (_ & _ & Hc).
  destruct (Hc eq_refl) as (v & Hv & Hs & _).
  cbn in Hv. injection Hv as <-. exact Hs.
Defined.

Lemma prompt_path_witness :
  envYields Fixtures.typedKeyReadOnly = false
  /\ probeYields Fixtures.typedKeyReadOnly = false
  /\ @storedKey Fixtures.posix Fixtures.typedKeyReadOnly = None
  /\ JS.trim (answer Fixtures.typedKeyReadOnly) <> EmptyString
  /\ @canSave Fixtures.posix Fixtures.typedKeyReadOnly = false
  /\ out (run (@getAnthropicApiKey Fixtures.posix)
            Fixtures.typedKeyReadOnly)
     = Done {| method := prompt; key := Some (JS.VString "sk-ant-typed") |}
  /\ last (trace (run (@getAnthropicApiKey Fixtures.posix)
                    Fixtures.typedKeyReadOnly))
     = Some saveWarning.
Proof.
  assert (H1 : envYields Fixtures.typedKeyReadOnly = false) by reflexivity.
  assert (H2 : probeYields Fixtures.typedKeyReadOnly = false)
    by reflexivity.
  assert (H3 : @storedKey Fixtures.posix Fixtures.typedKeyReadOnly = None)
    by reflexivity.
  assert (H4 : JS.trim (answer Fixtures.typedKeyReadOnly) <> EmptyString)
    by (vm_compute; discriminate).
  assert (H5 : @canSave Fixtures.posix Fixtures.typedKeyReadOnly = false)
    by reflexivity.
  destruct (@prompt_path Fixtures.posix Fixtures.typedKeyReadOnly H1 H2 H3)
    as [_ Hkey].
  destruct (Hkey H4) as [Hout Hwarn].
  repeat (split; [assumption|]). exact (Hwarn H5).
Defined.

End AuthSpec.

(** ** The AI client invocation *)

Module ClaudeSpec.
Import Sys Helpers Observe SysFacts.

Section WithPlatform.
Context {P : Platform}.

#[local] Arguments getAnthropicApiKey : simpl never.

(** What [executeClaudeCommand] throws when the completion call fails,
    by branch. *)
Lemma run_failed_invocation (w : World) (prompt_ input_ : string)
    (auth : AuthResult) (e : JsError) :
  out (run getAnthropicApiKey w) = Done auth ->
  proc w (claudeCommand prompt_) (invocationOptions auth input_) = inl e ->
  out (run (executeClaudeCommand prompt_ input_) w)
  = Thrown
      (if timedOut e then Error timeoutMessage
       else match method auth with
            | claude_cli => e
            | _ => if exitCodeTruthy e then Error "Claude CLI not found"
                   else e
            end).
Proof.
  intros Hauth Hproc. unfold executeClaudeCommand.
  rewrite run_mbind. unfold extend. rewrite Hauth.
  unfold invocationOptions in Hproc.
  destruct (method auth); cbn; rewrite run_proc, Hproc; cbn;
    destruct (timedOut e); cbn; try reflexivity;
    destruct (exitCodeTruthy e); reflexivity.
Qed.

(** C4, amended: when the completion call fails, a timeout is reported
    by an error that names the 90 seconds of the configured timeout of
    90,000 ms, whatever the method; otherwise a non-zero exit code is
    reported as 'Claude CLI not found' when the method is not
    ['claude-cli']; every other failure, and every failure that is not
    a timeout under ['claude-cli'], is thrown as it came. *)
Theorem failure_classification (w : World) (prompt_ input_ : string)
    (auth : AuthResult) (e : JsError) :
  out (run getAnthropicApiKey w) = Done auth ->
  proc w (claudeCommand prompt_) (invocationOptions auth input_) = inl e ->
  let thrown := out (run (executeClaudeCommand prompt_ input_) w) in
  timeout (invocationOptions auth input_) = Some (90 * 1000)
  /\ (timedOut e = true ->
      thrown = Thrown (Error
        "Claude CLI timed out after 90 seconds. The diff may be too large or Claude API is slow."))
  /\ (timedOut e = false -> method auth <> claude_cli ->
      (exists c, exitCode e = Some c /\ c <> 0) ->
      thrown = Thrown (Error "Claude CLI not found"))
  /\ (timedOut e = false ->
      method auth = claude_cli \/ exitCode e = None
      \/ exitCode e = Some 0 ->
      thrown = Thrown e).
Proof.
  intros Hauth Hproc thrown. subst thrown.
  rewrite (run_failed_invocation w prompt_ input_ auth e Hauth Hproc).
  split; [unfold invocationOptions; destruct (method auth); reflexivity|].
  split; [intros ->; reflexivity|]. split.
  - intros -> Hm (c & Hc & Hne). unfold exitCodeTruthy. rewrite Hc.
    destruct (c =? 0) eqn:E; [apply Z.eqb_eq in E; contradiction|].
    destruct (method auth); [reflexivity | contradiction | reflexivity
                             | reflexivity].
  - intros -> H. destruct (method auth) eqn:Hm; try reflexivity;
      destruct H as [H|[H|H]]; try discriminate;
      unfold exitCodeTruthy; rewrite H; reflexivity.
Qed.

End WithPlatform.

(** A timeout is named under every method: here with a session of the AI
    CLI. *)
Example timeout_named_with_session :
  out (run (@executeClaudeCommand Fixtures.posix "p" "in")
         Fixtures.sessionTimesOutWorld)
  = Thrown (Error timeoutMessage).
Proof. reflexivity. Qed.

(** C4, as stated, fails: with a session of the AI CLI (method
    ['claude-cli']) a completion call that exits with code 1, without a
    timeout, is thrown as it came, not as 'Claude CLI not found'. *)
Lemma session_failure_thrown_unchanged :
  out (run (@getAnthropicApiKey Fixtures.posix) Fixtures.sessionFailsWorld)
  = Done {| method := claude_cli; key := None |}
  /\ proc Fixtures.sessionFailsWorld (claudeCommand "p") (cliOptions "in")
     = inl (Fixtures.exited 1)
  /\ timedOut (Fixtures.exited 1) = false
  /\ exitCode (Fixtures.exited 1) = Some 1
  /\ out (run (@executeClaudeCommand Fixtures.posix "p" "in")
            Fixtures.sessionFailsWorld)
     = Thrown (Fixtures.exited 1)
  /\ Fixtures.exited 1 <> Error "Claude CLI not found".
Proof. repeat split. discriminate. Qed.

Lemma failure_classification_witness :
  out (run (@getAnthropicApiKey Fixtures.posix) Fixtures.envKeyFailsWorld)
  = Done {| method := env_; key := Some (JS.VString "sk-ant-env") |}
  /\ proc Fixtures.envKeyFailsWorld (claudeCommand "p")
       (keyOptions "in" (Some (JS.VString "sk-ant-env")))
     = inl (Fixtures.exited 1)
  /\ out (run (@executeClaudeCommand Fixtures.posix "p" "in")
            Fixtures.envKeyFailsWorld)
     = Thrown (Error "Claude CLI not found").
Proof.
  assert (H1 : out (run (@getAnthropicApiKey Fixtures.posix)
                      Fixtures.envKeyFailsWorld)
               = Done {| method := env_; key := Some (JS.VString "sk-ant-env") |})
    by reflexivity.
  assert (H2 : proc Fixtures.envKeyFailsWorld (claudeCommand "p")
                 (invocationOptions
                    {| method := env_; key := Some (JS.VString "sk-ant-env") |} "in")
               = inl (Fixtures.exited 1)) by reflexivity.
  destruct (@failure_classification Fixtures.posix
              Fixtures.envKeyFailsWorld "p" "in" _ _ H1 H2)
    as (_ & _ & Hexit & _).
  split; [exact H1|]. split; [exact H2|].
  apply Hexit; [reflexivity | discriminate | exists 1; split; [reflexivity | lia]].
Defined.

End ClaudeSpec.

(** ** The push-and-PR orchestrator *)

Module GhpSpec.
Import Sys Helpers Ghp Observe SysFacts JSFacts.

(** *** Title and description *)




(** *** The commands of the branch that finds a pull request *)

Lemma only_consoleLines (ok : string -> Prop) (lines : list string) :
  only ok (consoleLines lines).
Proof.
  induction lines as [|line rest IH]; cbn.
  - constructor.
  - constructor; [exact I | intros _; exact IH].
Qed.

(** One step on a goal [only ok p], by the shape of [p]. *)
Ltac only_step :=
  match goal with
  | |- only _ (Ret _) => apply only_Ret
  | |- only _ (Throw _) => apply only_Throw
  | |- only _ (Exit _) => apply only_Exit
  | |- only _ (consoleLines _) => apply only_consoleLines
  | |- only _ (Vis _ _) => apply only_Vis; [cbn | intros]
  | |- only _ (bind _ _) => apply only_bind; [|intros]
  | |- only _ (mbind _ _) => apply only_mbind; [|intros]
  | |- only _ (try_catch _ _) => apply only_try_catch; [|intros]
  | |- only _ (match ?x with _ => _ end) => destruct x
  | |- True => exact I
  end.




Section WithPlatform.
Context {P : Platform}.






#[local] Arguments getPRContext : simpl never.
#[local] Arguments generatePRContent : simpl never.
#[local] Arguments editDescription : simpl never.




(** The branch without a pull request, when every step succeeds: the
    description goes to the temporary file, the title, with its quotes
    escaped, to [gh pr create], and the file is removed. *)
Lemma run_createNewPR (w : World)
    (branch context prContent output : string) :
  let r1 := run getPRContext w in
  let r2 := run (generatePRContent context) (final r1) in
  let tmpFile := tmpFileOf (tmpdir w) "pr-body" (now w) in
  let create := "gh pr create --title "
                +:+ JS.quoted (JS.escapeQuotes (titleOf prContent))
                +:+ " --body-file " +:+ JS.quoted tmpFile
                +:+ " --base main --head " +:+ JS.quoted branch in
  out r1 = Done context ->
  out r2 = Done prContent ->
  fault w (OpWrite tmpFile) = None ->
  proc w create (withShell noOptions) = inr output ->
  fault w (OpUnlink tmpFile) = None ->
  let r := run (createNewPR branch) w in
  out r = Done tt
  /\ In (Obs (WriteFile tmpFile (descriptionOf prContent)) None) (trace r)
  /\ In (Obs (ExecaCommand create (withShell noOptions)) (inr output))
        (trace r)
  /\ files (final r) !! tmpFile = None.
Proof.
  intros r1 r2 tmpFile create H1 H2 Hwrite Hcreate Hunlink.
  unfold createNewPR. cbn.
  rewrite run_mbind. unfold extend. fold r1. rewrite H1. cbn.
  rewrite run_mbind. unfold extend. fold r2. rewrite H2. cbn.
  subst r2 r1. rewrite !run_tmpdir, !run_now, !run_fault.
  fold tmpFile. rewrite Hwrite. cbn.
  destruct isDebug; cbn; rewrite !run_proc; fold create; rewrite Hcreate;
    cbn; rewrite !run_fault, Hunlink, lookup_insert_eq; cbn;
    destruct (matchUrl output); cbn;
    (split; [reflexivity|]);
    (split; [do 2 right; apply in_or_app; right; apply in_or_app; right;
             cbn; tauto|]);
    (split; [do 2 right; apply in_or_app; right; apply in_or_app; right;
             cbn; tauto|]);
    apply lookup_delete_eq.
Qed.

(** [main] is its run up to the query, then one of the two branches,
    all inside the outer [try]. *)
Lemma run_main (w : World) :
  run main w
  = recover
      (extend (beforePR w) (fun found w' =>
         run (match snd found with
              | Some url => updateExistingPR url
              | None => createNewPR (fst found)
              end) w'))
      (fun error =>
         run (console Err ("Error: " +:+ message error);; Exit 1)).
Proof.
  unfold main, beforePR. rewrite run_try_catch. f_equal.
  rewrite run_mbind, extend_assoc. apply extend_ext. intros branch w0.
  rewrite run_mbind, extend_assoc. apply extend_ext. intros [] w1.
  rewrite run_mbind, extend_assoc. apply extend_ext. intros [] w2.
  rewrite run_mbind, extend_assoc. apply extend_ext. intros pr w3.
  unfold extend. cbn. destruct (run _ w3) as [o t f].
  destruct o; reflexivity.
Qed.

Lemma beforePR_same_outside (w : World) :
  same_outside w (final (beforePR w)).
Proof.
  unfold beforePR.
  repeat (apply extend_same_outside;
          [apply run_same_outside | intros ? ?]).
  apply same_outside_refl.
Qed.




End WithPlatform.



(** The same run on a system that refuses to remove the file: the
    description is updated, the file stays and the run exits with
    status 1. *)
Lemma failed_removal_leaves_file :
  let r := run (@main Fixtures.posix) Fixtures.repoWithPRKeepsFiles in
  last (commands (trace r))
  = Some ("gh pr edit --body-file "
          +:+ JS.quoted "/tmp/pr-edit-1700000000000.md")
  /\ proc Fixtures.repoWithPRKeepsFiles
       ("gh pr edit --body-file "
        +:+ JS.quoted "/tmp/pr-edit-1700000000000.md")
       (withShell noOptions) = inr EmptyString
  /\ out r = Exited 1
  /\ files (final r) !! "/tmp/pr-edit-1700000000000.md"
     = Some (JS.join ["Summary"; "- widgets"] JS.nl).
Proof. vm_compute. repeat split. Qed.

End GhpSpec.

(** ** How programs end and what they start: the general facts *)

Module OutcomesFacts.
Import Sys Observe Outcomes SysFacts.

Lemma ends_weaken {R} (okRet okRet' : R -> Prop)
    (okThrow okThrow' : JsError -> Prop) (okExit okExit' : Z -> Prop)
    (p : prog R) :
  (forall r, okRet r -> okRet' r) ->
  (forall e, okThrow e -> okThrow' e) ->
  (forall c, okExit c -> okExit' c) ->
  ends okRet okThrow okExit p -> ends okRet' okThrow' okExit' p.
Proof.
  intros HR HT HE Hp.
  induction Hp; constructor; auto.
Qed.

Lemma ends_bind {A B} (okA : A -> Prop) (okB : B -> Prop)
    (okThrow : JsError -> Prop) (okExit : Z -> Prop)
    (p : prog A) (f : A -> prog B) :
  ends okA okThrow okExit p ->
  (forall a, okA a -> ends okB okThrow okExit (f a)) ->
  ends okB okThrow okExit (bind p f).
Proof.
  intros Hp Hf. induction Hp; simpl; try (constructor; auto); auto.
Qed.

Lemma ends_mbind {A B} (okA : A -> Prop) (okB : B -> Prop)
    (okThrow : JsError -> Prop) (okExit : Z -> Prop)
    (p : prog A) (f : A -> prog B) :
  ends okA okThrow okExit p ->
  (forall a, okA a -> ends okB okThrow okExit (f a)) ->
  ends okB okThrow okExit (p ≫= f).
Proof. apply ends_bind. Qed.

Lemma ends_try_catch {A} (okRet : A -> Prop)
    (okInner okThrow : JsError -> Prop) (okExit : Z -> Prop)
    (p : prog A) (h : JsError -> prog A) :
  ends okRet okInner okExit p ->
  (forall e, okInner e -> ends okRet okThrow okExit (h e)) ->
  ends okRet okThrow okExit (try_catch p h).
Proof.
  intros Hp Hh. induction Hp; simpl; try (constructor; auto); auto.
Qed.

(** What [ends] promises holds of every run. *)
Lemma ends_run {R} (okRet : R -> Prop) (okThrow : JsError -> Prop)
    (okExit : Z -> Prop) (p : prog R) :
  ends okRet okThrow okExit p ->
  forall w, ended okRet okThrow okExit (out (run p w)).
Proof.
  intros Hp. induction Hp as [r Hr|e He|c Hc|X ev k Hk IH]; intros w;
    try assumption.
  simpl. destruct (handle ev w) as [x w1]. apply IH.
Qed.

Lemma every_bind (ok : forall X, event X -> Prop) {A B} (p : prog A)
    (f : A -> prog B) :
  every ok p -> (forall a, every ok (f a)) -> every ok (bind p f).
Proof.
  intros Hp Hf. induction Hp; simpl; try constructor; auto.
Qed.

Lemma every_mbind (ok : forall X, event X -> Prop) {A B} (p : prog A)
    (f : A -> prog B) :
  every ok p -> (forall a, every ok (f a)) -> every ok (p ≫= f).
Proof. apply every_bind. Qed.

Lemma every_try_catch (ok : forall X, event X -> Prop) {A} (p : prog A)
    (h : JsError -> prog A) :
  every ok p -> (forall e, every ok (h e)) -> every ok (try_catch p h).
Proof.
  intros Hp Hh. induction Hp; simpl; try constructor; auto.
Qed.

(** What [every] promises holds of every run. *)
Lemma every_run (ok : forall X, event X -> Prop) {R} (p : prog R) :
  every ok p -> forall w, Forall (observed ok) (trace (run p w)).
Proof.
  intros Hp. induction Hp as [r|e|c|X ev k Hev Hk IH]; intros w;
    try (simpl; constructor).
  simpl. destruct (handle ev w) as [x w1]. simpl.
  constructor; [exact Hev | apply IH].
Qed.

(** And of every run with the terminal at end of input that settles. *)
Lemma ends_runClosed {R} (okRet : R -> Prop) (okThrow : JsError -> Prop)
    (okExit : Z -> Prop) (p : prog R) :
  ends okRet okThrow okExit p ->
  forall w o, snd (runClosed p w) = Settled o ->
              ended okRet okThrow okExit o.
Proof.
  intros Hp. induction Hp as [r Hr|e He|c Hc|X ev k Hk IH]; intros w o;
    cbn; try (intros [= <-]; assumption).
  destruct (isQuestion ev); [discriminate|].
  destruct (handle ev w) as [x w1].
  specialize (IH x w1 o). destruct (runClosed (k x) w1) as [t e].
  exact IH.
Qed.

Lemma ends_consoleLines (okThrow : JsError -> Prop) (okExit : Z -> Prop)
    (lines : list string) :
  ends (fun _ => True) okThrow okExit (consoleLines lines).
Proof.
  induction lines as [|line rest IH]; cbn.
  - constructor. exact I.
  - constructor. intros _. exact IH.
Qed.

(** One step on a goal [ends okRet okThrow okExit p], by the shape of [p];
    the value of a first part and what a [try] body throws are left free. *)
Ltac ends_step :=
  match goal with
  | |- ends _ _ _ (Ret _) => apply ends_Ret
  | |- ends _ _ _ (Throw _) => apply ends_Throw
  | |- ends _ _ _ (Exit _) => apply ends_Exit
  | |- ends _ _ _ (consoleLines _) => apply ends_consoleLines
  | |- ends _ _ _ (Vis _ _) => apply ends_Vis; intros
  | |- ends _ _ _ (bind _ _) =>
      apply (ends_bind (fun _ => True)); [|intros]
  | |- ends _ _ _ (mbind _ _) =>
      apply (ends_mbind (fun _ => True)); [|intros]
  | |- ends _ _ _ (try_catch _ _) =>
      apply (ends_try_catch _ (fun _ => True)); [|intros]
  | |- ends _ _ _ (match ?x with _ => _ end) => destruct x
  end.

Ltac ends_tac :=
  repeat (cbn; ends_step); cbn; try exact I; try reflexivity; auto.

Lemma only_lines (ok : string -> Prop) (lines : list string) :
  only ok (consoleLines lines).
Proof.
  induction lines as [|line rest IH]; cbn.
  - constructor.
  - constructor; [exact I | intros _; exact IH].
Qed.

(** The commands that a goal [only ok p] asks about, one step at a time. *)
Ltac only_step :=
  match goal with
  | |- only _ (Ret _) => apply only_Ret
  | |- only _ (consoleLines _) => apply only_lines
  | |- only _ (Throw _) => apply only_Throw
  | |- only _ (Exit _) => apply only_Exit
  | |- only _ (Vis _ _) => apply only_Vis; [cbn | intros]
  | |- only _ (bind _ _) => apply only_bind; [|intros]
  | |- only _ (mbind _ _) => apply only_mbind; [|intros]
  | |- only _ (try_catch _ _) => apply only_try_catch; [|intros]
  | |- only _ (match ?x with _ => _ end) => destruct x
  | |- True => exact I
  end.

End OutcomesFacts.

(** ** The truncation policies: what is kept *)

Module DiffMore.
Import Diff JSFacts DiffSpec Outcomes.



(** *** The buckets *)









(** *** The sections *)




Lemma starts_first (c : ascii) (p s : string) :
  JS.startsWith s (String c p) = true ->
  String.prefix (String c EmptyString) s = true.
Proof.
  unfold JS.startsWith. destruct s as [|d s]; simpl; [discriminate|].
  destruct (ascii_dec c d); [|discriminate]. intros _.
  destruct s; reflexivity.
Qed.

(** X3.  The lines the commit policy keeps in its structured output are lines of
    the diff that start with [diff --git], [+] or [-]: unchanged lines and
    hunk headers are left out.  When the diff has at most 200 lines that
    start with [+] or [-], all of them are kept. *)
Theorem commit_lines_kept (diff : string) :
  (forall line, In line (commitLimitedLines diff) ->
                In line (JS.split diff "010")
                /\ (JS.startsWith line "diff --git" = true
                    \/ isChange line = true))
  /\ ((List.length (List.filter isChange (JS.split diff "010")) <= 200)%nat ->
      commitLimitedLines diff
      = List.filter isCommitHeader (JS.split diff "010")
        ++ List.filter isChange (JS.split diff "010")).
Proof.
  rewrite commitLimitedLines_eq. split.
  - intros line Hin. apply in_app_or in Hin as [Hin|Hin].
    + apply filter_In in Hin as [Hin Hh]. split; [exact Hin|].
      unfold isCommitHeader in Hh. unfold isChange.
      apply orb_true_iff in Hh as [Hh|Hh];
        [apply orb_true_iff in Hh as [Hh|Hh]|].
      * now left.
      * right. apply starts_first in Hh. unfold JS.startsWith.
        now rewrite Hh.
      * right. apply starts_first in Hh. unfold JS.startsWith.
        rewrite Hh. apply orb_true_r.
    + apply In_take, filter_In in Hin as [Hin Hc]. auto.
  - intros Hlen. now rewrite take_ge.
Qed.

Lemma commit_lines_kept_witness :
  (List.length
     (List.filter isChange
        (JS.split ("diff --git a/f b/f" +:+ JS.nl +:+ "@@ -1 +1 @@" +:+ JS.nl
                   +:+ " same" +:+ JS.nl +:+ "+new") "010")) <= 200)%nat
  /\ commitLimitedLines ("diff --git a/f b/f" +:+ JS.nl +:+ "@@ -1 +1 @@"
                         +:+ JS.nl +:+ " same" +:+ JS.nl +:+ "+new")
     = ["diff --git a/f b/f"; "+new"].
Proof.
  set (d := "diff --git a/f b/f" +:+ JS.nl +:+ "@@ -1 +1 @@" +:+ JS.nl
            +:+ " same" +:+ JS.nl +:+ "+new").
  assert (H : (List.length (List.filter isChange (JS.split d "010"))
               <= 200)%nat) by (vm_compute; lia).
  split; [exact H|].
  rewrite (proj2 (commit_lines_kept d) H). reflexivity.
Defined.

End DiffMore.

(** ** The helpers *)

Module HelpersSpec.
Import Sys Helpers Observe Outcomes SysFacts OutcomesFacts JSFacts.

(** *** Trimming *)

Lemma trimStart_headOK (s : string) : headOK (JS.trimStart s).
Proof.
  induction s as [|c s IH]; simpl; [exact I|].
  destruct (JS.is_white c) eqn:E; [exact IH | simpl; exact E].
Qed.

Lemma trimStart_id (s : string) : headOK s -> JS.trimStart s = s.
Proof. destruct s as [|c s]; simpl; [reflexivity | now intros ->]. Qed.

Lemma trimEnd_headOK (s : string) : headOK s -> headOK (JS.trimEnd s).
Proof.
  destruct s as [|c s]; simpl; [auto|]. intros Hc. rewrite Hc.
  destruct (JS.trimEnd s); simpl; exact Hc.
Qed.

Lemma trimEnd_idem (s : string) : JS.trimEnd (JS.trimEnd s) = JS.trimEnd s.
Proof.
  induction s as [|c s IH]; [reflexivity|]. simpl.
  destruct (JS.trimEnd s) as [|d t] eqn:E.
  - destruct (JS.is_white c) eqn:Hc; [reflexivity|]. simpl. now rewrite Hc.
  - change (JS.trimEnd (String c (String d t)))
      with (match JS.trimEnd (String d t) with
            | EmptyString =>
                if JS.is_white c then EmptyString else String c EmptyString
            | String d' t' => String c (String d' t')
            end).
    rewrite IH. reflexivity.
Qed.

(** Trimming a trimmed string changes nothing. *)
Lemma trim_idem (s : string) : JS.trim (JS.trim s) = JS.trim s.
Proof.
  unfold JS.trim.
  rewrite (trimStart_id (JS.trimEnd (JS.trimStart s))).
  - apply trimEnd_idem.
  - apply trimEnd_headOK, trimStart_headOK.
Qed.


Section WithPlatform.
Context {P : Platform}.

(** X4.  [getCurrentBranch] returns only a branch name that git printed, never
    the empty string: an empty output makes it throw 'Failed to get current
    branch', and a failing command makes it throw what the command threw.
    It starts one command. *)
Theorem current_branch_not_empty (w : World) :
  let r := run getCurrentBranch w in
  let printed_ := proc w "git branch --show-current" (withShell noOptions) in
  (forall branch, out r = Done branch ->
                  branch <> EmptyString /\ printed_ = inr branch)
  /\ (printed_ = inr EmptyString ->
      out r = Thrown (Error "Failed to get current branch"))
  /\ (forall e, printed_ = inl e -> out r = Thrown e)
  /\ commands (trace r) = ["git branch --show-current"].
Proof.
  unfold getCurrentBranch, exec. cbn.
  destruct (proc w "git branch --show-current" (withShell noOptions))
    as [e|b]; cbn.
  - split; [discriminate|]. split; [discriminate|].
    split; [|reflexivity]. intros e' [= ->]. reflexivity.
  - destruct b as [|c b]; cbn.
    + split; [discriminate|]. split; [reflexivity|].
      split; [discriminate | reflexivity].
    + split; [intros b' [= <-]; split; [discriminate | reflexivity]|].
      split; [discriminate|]. split; [discriminate | reflexivity].
Qed.

Lemma current_branch_not_empty_witness :
  out (run getCurrentBranch Fixtures.repoWithPR) = Done "feature"
  /\ "feature" <> EmptyString.
Proof.
  assert (H : out (run getCurrentBranch Fixtures.repoWithPR) = Done "feature")
    by reflexivity.
  split; [exact H|].
  exact (proj1 (proj1 (current_branch_not_empty Fixtures.repoWithPR)
                  "feature" H)).
Defined.

(** The run of [hasUncommittedChanges], whole. *)
Lemma run_hasUncommittedChanges (w : World) :
  run hasUncommittedChanges w
  = {| out :=
         Done (printed (proc w "git diff --name-only" (withShell quiet))
               || printed (proc w "git diff --cached --name-only"
                             (withShell quiet))
               || printed (proc w "git ls-files --others --exclude-standard"
                             (withShell quiet)));
       trace :=
         [Obs (ExecaCommand "git diff --name-only" (withShell quiet))
            (proc w "git diff --name-only" (withShell quiet));
          Obs (ExecaCommand "git diff --cached --name-only" (withShell quiet))
            (proc w "git diff --cached --name-only" (withShell quiet));
          Obs (ExecaCommand "git ls-files --others --exclude-standard"
                 (withShell quiet))
            (proc w "git ls-files --others --exclude-standard"
               (withShell quiet))];
       final := w |}.
Proof.
  unfold hasUncommittedChanges, exec. cbn.
  destruct (proc w "git diff --name-only" (withShell quiet)); cbn;
    destruct (proc w "git diff --cached --name-only" (withShell quiet)); cbn;
    destruct (proc w "git ls-files --others --exclude-standard"
                (withShell quiet)); reflexivity.
Qed.

(** X5.  [hasUncommittedChanges] never throws and never exits: it always starts
    the same three git commands, in the same order, whatever the first ones
    answer, and answers [true] exactly when one of them succeeded with a
    non-empty output.  A command that fails counts as one that printed
    nothing. *)
Theorem uncommitted_changes_reads (w : World) :
  let r := run hasUncommittedChanges w in
  out r
  = Done (printed (proc w "git diff --name-only" (withShell quiet))
          || printed (proc w "git diff --cached --name-only" (withShell quiet))
          || printed (proc w "git ls-files --others --exclude-standard"
                        (withShell quiet)))
  /\ commands (trace r)
     = ["git diff --name-only"; "git diff --cached --name-only";
        "git ls-files --others --exclude-standard"]
  /\ final r = w.
Proof. cbn zeta. rewrite run_hasUncommittedChanges. repeat split. Qed.

(** X6.  [getCurrentPR] never throws and never exits.  It finds nothing exactly
    when the query fails or prints nothing, and what it finds is the
    non-empty output of the query. *)
Theorem current_pr_found (w : World) :
  let r := run getCurrentPR w in
  let answer := proc w "gh pr view --json url -q .url" (withShell noOptions) in
  exists found : option string,
    out r = Done found
    /\ (found = None <-> printed answer = false)
    /\ (forall url, found = Some url ->
                    url <> EmptyString /\ answer = inr url).
Proof.
  unfold getCurrentPR, exec. cbn.
  destruct (proc w "gh pr view --json url -q .url" (withShell noOptions))
    as [e|url]; cbn.
  - exists None. repeat split; try discriminate.
  - destruct url as [|c url]; cbn.
    + exists None. repeat split; try discriminate.
    + eexists. split; [reflexivity|]. split; [split; discriminate|].
      intros ? [= <-]. split; [discriminate | reflexivity].
Qed.

Lemma current_pr_found_witness :
  exists found : option string,
    out (run getCurrentPR Fixtures.repoWithPR) = Done found
    /\ found = Some "https://github.com/x/y/pull/1".
Proof.
  destruct (current_pr_found Fixtures.repoWithPR) as (found & Hout & _ & _).
  exists found. split; [exact Hout|].
  assert (H : out (run getCurrentPR Fixtures.repoWithPR)
              = Done (Some "https://github.com/x/y/pull/1")) by reflexivity.
  rewrite Hout in H. now injection H.
Defined.

(** [getCurrentBranch] starts one command and leaves the world as it
    was. *)
Lemma getCurrentBranch_run (w : World) :
  commands (trace (run getCurrentBranch w)) = ["git branch --show-current"]
  /\ final (run getCurrentBranch w) = w.
Proof.
  unfold getCurrentBranch, exec. cbn.
  destruct (proc w "git branch --show-current" (withShell noOptions))
    as [e|[|c b]]; split; reflexivity.
Qed.

#[local] Arguments getCurrentBranch : simpl never.
#[local] Arguments getAnthropicApiKey : simpl never.
#[local] Arguments executeClaudeCommand : simpl never.

(** X7.  [ensureBranchPushed] pushes once, after it has read the branch and
    looked for its upstream: with [git push] when the lookup printed an
    upstream, with [git push -u origin <branch>] when it failed or printed
    nothing.  It returns when that push succeeds and throws what the push
    threw otherwise; when the branch cannot be read, it throws before any
    other command. *)
Theorem pushes_once (w : World) :
  let r := run ensureBranchPushed w in
  (forall branch,
     out (run getCurrentBranch w) = Done branch ->
     let lookup := "git rev-parse --abbrev-ref " +:+ branch
                   +:+ "@{upstream}" in
     let push := if printed (proc w lookup (withShell quiet))
                 then "git push"
                 else "git push -u origin " +:+ branch in
     commands (trace r) = ["git branch --show-current"; lookup; push]
     /\ out r = match proc w push (withShell noOptions) with
               | inr _ => Done tt
               | inl e => Thrown e
               end)
  /\ (forall e,
        out (run getCurrentBranch w) = Thrown e ->
        out r = Thrown e
        /\ commands (trace r) = ["git branch --show-current"]).
Proof.
  destruct (getCurrentBranch_run w) as [Hcmd Hfinal].
  cbn zeta. unfold ensureBranchPushed. rewrite run_mbind. unfold extend.
  split.
  - intros branch Hb. rewrite Hb, Hfinal. unfold exec. cbn.
    unfold commands in *. rewrite omap_app, Hcmd.
    destruct (proc w ("git rev-parse --abbrev-ref " +:+ branch
                      +:+ "@{upstream}") (withShell quiet)) as [e|up]; cbn.
    + destruct (proc w ("git push -u origin " +:+ branch)
                  (withShell noOptions)); cbn; split; reflexivity.
    + destruct up as [|c up]; cbn.
      * destruct (proc w ("git push -u origin " +:+ branch)
                    (withShell noOptions)); cbn; split; reflexivity.
      * destruct (proc w "git push" (withShell noOptions)); cbn;
          split; reflexivity.
  - intros e He. rewrite He. cbn. split; [reflexivity | exact Hcmd].
Qed.

Lemma pushes_once_witness :
  out (run getCurrentBranch Fixtures.repoWithPR) = Done "feature"
  /\ commands (trace (run ensureBranchPushed Fixtures.repoWithPR))
     = ["git branch --show-current";
        "git rev-parse --abbrev-ref feature@{upstream}"; "git push"]
  /\ out (run ensureBranchPushed Fixtures.repoWithPR) = Done tt.
Proof.
  assert (H : out (run getCurrentBranch Fixtures.repoWithPR) = Done "feature")
    by reflexivity.
  destruct (proj1 (pushes_once Fixtures.repoWithPR) "feature" H)
    as [Hc Ho].
  split; [exact H|]. split; [exact Hc | exact Ho].
Defined.

(** X8.  Every context [getPRContext] returns is the fixed frame around the
    three outputs of git, the third one, the full diff, cut by the PR
    policy: its length is 43 characters more than the two summaries and the
    cut diff, so at most 100,096 characters more than the two summaries.
    It returns only when the three commands succeed. *)
Theorem pr_context_shape (w : World) (context : string) :
  out (run getPRContext w) = Done context ->
  exists diffStat commits fullDiff : string,
    proc w "git diff origin/main...HEAD --stat" (withShell noOptions)
    = inr diffStat
    /\ proc w "git log origin/main..HEAD --oneline" (withShell noOptions)
       = inr commits
    /\ proc w "git diff origin/main...HEAD" (withShell noOptions)
       = inr fullDiff
    /\ context
       = "Diff summary:" +:+ JS.nl +:+ diffStat +:+ JS.nl +:+ JS.nl
         +:+ "Commits:" +:+ JS.nl +:+ commits +:+ JS.nl +:+ JS.nl
         +:+ "Sample changes:" +:+ JS.nl +:+ Diff.limitDiffForPR fullDiff
    /\ JS.length context
       = 43 + JS.length diffStat + JS.length commits
         + JS.length (Diff.limitDiffForPR fullDiff)
    /\ JS.length context
       <= 100096 + JS.length diffStat + JS.length commits.
Proof.
  unfold getPRContext, exec. cbn.
  destruct (proc w "git diff origin/main...HEAD --stat" (withShell noOptions))
    as [e1|diffStat]; cbn; [discriminate|].
  destruct (proc w "git log origin/main..HEAD --oneline"
              (withShell noOptions)) as [e2|commits]; cbn; [discriminate|].
  destruct (proc w "git diff origin/main...HEAD" (withShell noOptions))
    as [e3|fullDiff]; cbn; [discriminate|].
  unfold Diff.limitDiffForPR.
  destruct (Diff.limitDiffForPR_w fullDiff) as [lines limited] eqn:E.
  assert (Hlim : Diff.limitDiffForPR fullDiff = limited)
    by (unfold Diff.limitDiffForPR; now rewrite E).
  rewrite run_mbind. unfold extend.
  assert (Hlines : out (run (consoleLines lines) w) = Done tt).
  { clear. induction lines as [|l ls IH]; cbn; [reflexivity | exact IH]. }
  rewrite Hlines. cbn. intros [= <-].
  exists diffStat, commits, fullDiff. rewrite E. cbn [snd].
  repeat (split; [reflexivity|]).
  pose proof (proj2 (DiffSpec.limitDiffForPR_length fullDiff)) as Hb.
  rewrite Hlim in Hb. rewrite !length_app.
  change (JS.length JS.nl) with 1.
  change (JS.length "Diff summary:") with 13.
  change (JS.length "Commits:") with 8.
  change (JS.length "Sample changes:") with 15.
  split; lia.
Qed.

Lemma pr_context_shape_witness :
  exists context : string,
    out (run getPRContext Fixtures.repoWithPR) = Done context
    /\ JS.length context = 43.
Proof.
  assert (H : out (run getPRContext Fixtures.repoWithPR)
              = Done ("Diff summary:" +:+ JS.nl +:+ JS.nl +:+ JS.nl
                      +:+ "Commits:" +:+ JS.nl +:+ JS.nl +:+ JS.nl
                      +:+ "Sample changes:" +:+ JS.nl)) by reflexivity.
  destruct (pr_context_shape Fixtures.repoWithPR _ H)
    as (d & c & f & _ & _ & _ & _ & _ & _).
  eexists. split; [exact H | reflexivity].
Defined.

Lemma every_consoleLines (ok : forall X, event X -> Prop)
    (lines : list string) :
  (forall s text, ok _ (Console s text)) -> every ok (consoleLines lines).
Proof.
  intros Hok. induction lines as [|line rest IH]; cbn.
  - constructor.
  - constructor; [apply Hok | intros _; exact IH].
Qed.

(** One step on a goal [every ok p], by the shape of [p]. *)
Ltac every_step :=
  match goal with
  | |- every _ (Ret _) => apply every_Ret
  | |- every _ (Throw _) => apply every_Throw
  | |- every _ (Exit _) => apply every_Exit
  | |- every _ (Vis _ _) => apply every_Vis; [cbn | intros]
  | |- every _ (bind _ _) => apply every_bind; [|intros]
  | |- every _ (mbind _ _) => apply every_mbind; [|intros]
  | |- every _ (try_catch _ _) => apply every_try_catch; [|intros]
  | |- every _ (match ?x with _ => _ end) => destruct x
  | |- True => exact I
  end.

Lemma ai_calls_of_executeClaudeCommand (prompt_ input_ : string) :
  every (aiCallWith input_) (executeClaudeCommand prompt_ input_).
Proof.
  unfold executeClaudeCommand, getAnthropicApiKey, probeSession,
    readStoredKey, saveKey, responded, exec, fs, console, trigger.
  repeat (cbn; every_step);
    try (intros _; split; reflexivity);
    try (intros H; vm_compute in H; discriminate H).
Qed.

(** A [try] whose handler logs and throws the error again ends as its
    body does. *)
Lemma rethrow_out {A} (p : prog A) (h : JsError -> prog unit) (w : World) :
  (forall e w', out (run (h e) w') = Done tt) ->
  out (run (try_catch p (fun error => h error;; Throw error)) w)
  = out (run p w).
Proof.
  intros Hh. rewrite run_try_catch. unfold recover.
  destruct (out (run p w)) as [a|e|c] eqn:E; try exact E.
  cbn [out]. rewrite run_mbind. unfold extend. rewrite Hh. reflexivity.
Qed.

(** X9.  What the two generators give the AI client.  Whatever the diff,
    [generateCommitMessage] puts the diff cut by the commit policy, at most
    15,030 characters, on the standard input of every completion call, with
    the timeout of 90,000 ms; [generatePRContent] puts there the context as
    it got it.  Each ends as [executeClaudeCommand] does on that input:
    with its trimmed answer, or with the very error it threw. *)
Theorem generators_feed_the_client (w : World) (diff context : string) :
  let limited := Diff.limitDiffForCommit diff in
  JS.length limited <= 15030
  /\ Forall (observed (aiCallWith limited))
       (trace (run (generateCommitMessage diff) w))
  /\ out (run (generateCommitMessage diff) w)
     = out (run (executeClaudeCommand commitPrompt limited) w)
  /\ Forall (observed (aiCallWith context))
       (trace (run (generatePRContent context) w))
  /\ out (run (generatePRContent context) w)
     = out (run (executeClaudeCommand prPrompt context) w).
Proof.
  cbn zeta. split; [|split; [|split; [|split]]].
  - pose proof (length_nonneg diff) as Hd.
    destruct (DiffSpec.limitDiffForCommit_cases diff)
      as [[H ->]|[(_ & H & ->)|(_ & _ & ->)]]; [lia | lia |].
    rewrite length_app, DiffSpec.commitMarker_length, length_substring_0;
      lia.
  - apply every_run. unfold generateCommitMessage.
    apply every_try_catch; [apply ai_calls_of_executeClaudeCommand|].
    intros e. unfold console, trigger. repeat (cbn; every_step).
  - unfold generateCommitMessage.
    apply (rethrow_out _
             (fun _ => console Err
                         "✗ Failed to generate commit message with Claude")).
    reflexivity.
  - apply every_run. unfold generatePRContent.
    apply every_try_catch.
    + unfold console, trigger. cbn. every_step; [exact I|].
      apply every_mbind; [apply ai_calls_of_executeClaudeCommand|].
      intros r. repeat (cbn; every_step).
    + intros e. unfold console, trigger. repeat (cbn; every_step).
  - unfold generatePRContent. rewrite run_try_catch. unfold recover.
    unfold console, trigger. cbn. rewrite run_mbind. unfold extend.
    destruct (out (run (executeClaudeCommand prPrompt context) w))
      as [r|e|c]; reflexivity.
Qed.

(** X10.  What [executeClaudeCommand] returns is trimmed: it is the output of
    the completion call without the white space around it, and trimming it
    again changes nothing. *)
Theorem answer_is_trimmed (w : World) (prompt_ input_ answer_ : string) :
  out (run (executeClaudeCommand prompt_ input_) w) = Done answer_ ->
  JS.trim answer_ = answer_
  /\ exists (auth : AuthResult) (stdout : string),
       out (run getAnthropicApiKey w) = Done auth
       /\ proc w (claudeCommand prompt_) (invocationOptions auth input_)
          = inr stdout
       /\ answer_ = JS.trim stdout.
Proof.
  unfold executeClaudeCommand. rewrite run_mbind. unfold extend.
  destruct (out (run getAnthropicApiKey w)) as [auth|e|c] eqn:Hauth;
    [|discriminate..].
  unfold invocationOptions.
  destruct (method auth) eqn:Hm; cbn; rewrite run_proc;
    match goal with
    | |- context [proc w ?c ?o] => destruct (proc w c o) as [e|stdout] eqn:Hp
    end; cbn;
    try (destruct (timedOut e); cbn; try discriminate;
         destruct (exitCodeTruthy e); cbn; discriminate);
    intros [= <-]; (split; [apply trim_idem|]);
    exists auth, stdout; rewrite Hm; repeat split; assumption.
Qed.



End WithPlatform.


Lemma answer_is_trimmed_witness :
  out (run (@executeClaudeCommand Fixtures.posix "p" "in")
         Fixtures.repoWithPR)
  = Done (JS.join ["Add widget support"; EmptyString; "Summary"; "- widgets"]
            JS.nl)
  /\ JS.trim (JS.join ["Add widget support"; EmptyString; "Summary";
                       "- widgets"] JS.nl)
     = JS.join ["Add widget support"; EmptyString; "Summary"; "- widgets"]
         JS.nl.
Proof.
  assert (H : out (run (@executeClaudeCommand Fixtures.posix "p" "in")
                     Fixtures.repoWithPR)
              = Done (JS.join ["Add widget support"; EmptyString; "Summary";
                               "- widgets"] JS.nl)) by reflexivity.
  split; [exact H|].
  exact (proj1 (@answer_is_trimmed Fixtures.posix _ _ _ _ H)).
Defined.

End HelpersSpec.

(** ** The push-and-PR command: the other paths *)

Module GhpMore.
Import Sys Helpers Ghp Observe Outcomes SysFacts OutcomesFacts JSFacts.

(** *** The title on the command line *)

Lemma escapeQuotes_escaped (t : string) :
  forall after : bool, quotesEscaped after (JS.escapeQuotes t) = true.
Proof.
  induction t as [|c t IH]; intros after; [reflexivity|].
  simpl. destruct (Ascii.eqb c "034") eqn:E.
  - simpl. rewrite (IH false). reflexivity.
  - simpl. rewrite E, (IH (Ascii.eqb c "\")). reflexivity.
Qed.

(** X12.  [title.replace(/"/g, '\\"')]: the escaped title is longer by one
    character for each double quote, each of its double quotes comes right
    after a backslash, a title without a double quote is left as it is, and
    so is every backslash; escaping goes through concatenation. *)
Theorem title_escaping (t u : string) :
  JS.length (JS.escapeQuotes t) = JS.length t + Z.of_nat (countQuotes t)
  /\ quotesEscaped false (JS.escapeQuotes t) = true
  /\ (countQuotes t = 0%nat -> JS.escapeQuotes t = t)
  /\ JS.escapeQuotes (t +:+ u) = JS.escapeQuotes t +:+ JS.escapeQuotes u
  /\ JS.escapeQuotes (String "\" EmptyString) = String "\" EmptyString.
Proof.
  split; [|split; [apply escapeQuotes_escaped|split; [|split]]].
  - unfold JS.length. induction t as [|c t IH]; [reflexivity|].
    simpl. destruct (Ascii.eqb c "034"); simpl String.length; lia.
  - induction t as [|c t IH]; [reflexivity|]. simpl.
    destruct (Ascii.eqb c "034"); [discriminate|].
    intros H. now rewrite (IH H).
  - induction t as [|c t IH]; [reflexivity|].
    rewrite app_cons. simpl. rewrite IH.
    destruct (Ascii.eqb c "034"); reflexivity.
  - reflexivity.
Qed.

Lemma title_escaping_witness :
  countQuotes "Add widgets" = 0%nat
  /\ JS.escapeQuotes "Add widgets" = "Add widgets".
Proof.
  assert (H : countQuotes "Add widgets" = 0%nat) by reflexivity.
  destruct (title_escaping "Add widgets" EmptyString) as (_ & _ & Hid & _).
  split; [exact H | exact (Hid H)].
Defined.

(** *** The address in the output of [gh pr create] *)

Lemma takeNonWhite_split (s : string) :
  noWhite (takeNonWhite s) = true
  /\ exists rest, s = takeNonWhite s +:+ rest.
Proof.
  induction s as [|c s [IHw [rest IHr]]]; simpl.
  - split; [reflexivity | now exists EmptyString].
  - destruct (JS.is_white c) eqn:E; simpl.
    + split; [reflexivity | now exists (String c s)].
    + rewrite E, IHw. split; [reflexivity|].
      exists rest. rewrite app_cons. now rewrite <- IHr.
Qed.

Lemma substring_all (s : string) (m : nat) :
  (String.length s <= m)%nat -> String.substring 0 m s = s.
Proof.
  revert m. induction s as [|c s IH]; intros m Hm.
  - destruct m; reflexivity.
  - destruct m as [|m]; simpl in *; [lia|]. rewrite IH by lia. reflexivity.
Qed.

Lemma prefix_split (p s : string) (m : nat) :
  String.prefix p s = true -> (String.length s <= m)%nat ->
  s = p +:+ String.substring (String.length p) m s.
Proof.
  revert s m. induction p as [|c p IH]; intros s m Hp Hm.
  - simpl. now rewrite substring_all.
  - destruct s as [|d s]; simpl in Hp; [discriminate|].
    destruct (ascii_dec c d) as [->|]; [|discriminate].
    rewrite app_cons. simpl String.length. simpl String.substring.
    simpl in Hm. rewrite <- (IH s m Hp) by lia. reflexivity.
Qed.

Lemma app_assoc_str (a b c : string) : (a +:+ b) +:+ c = a +:+ (b +:+ c).
Proof.
  induction a as [|x a IH]; [reflexivity|].
  rewrite !app_cons, IH. reflexivity.
Qed.

(** X13.  [prOutput.match(/https:\/\/[^\s]+/)]: an address that is found starts
    with [https://], goes on with at least one more character, holds no
    white space, and stands in the output as it is. *)
Theorem matched_url (output url : string) :
  matchUrl output = Some url ->
  String.prefix "https://" url = true
  /\ 8 < JS.length url
  /\ noWhite url = true
  /\ exists before after : string, output = before +:+ url +:+ after.
Proof.
  induction output as [|c output IH].
  - simpl. discriminate.
  - intros H.
    change (match (if String.prefix "https://" (String c output)
                   then match takeNonWhite
                                (String.substring 8
                                   (String.length (String c output))
                                   (String c output)) with
                        | EmptyString => None
                        | String d t => Some ("https://" +:+ String d t)
                        end
                   else None) with
            | Some u => Some u
            | None => matchUrl output
            end = Some url) in H.
    destruct (String.prefix "https://" (String c output)) eqn:Hp.
    + pose proof (prefix_split _ _ (String.length (String c output)) Hp
                    (le_n _)) as Hs.
      set (tail := String.substring 8 (String.length (String c output))
                     (String c output)) in *.
      change (String.length "https://") with 8%nat in Hs. fold tail in Hs.
      destruct (takeNonWhite_split tail) as [Hw [rest Hrest]].
      destruct (takeNonWhite tail) as [|d t] eqn:Ht.
      * destruct (IH H) as (Hpre & Hlen & Hnw & before & after & ->).
        split; [exact Hpre|]. split; [exact Hlen|]. split; [exact Hnw|].
        exists (String c before), after. reflexivity.
      * injection H as <-.
        split; [reflexivity|].
        split; [rewrite length_app; unfold JS.length; simpl; lia|].
        split; [exact Hw|].
        exists EmptyString, rest. rewrite app_empty, Hs, Hrest.
        now rewrite app_assoc_str.
    + destruct (IH H) as (Hpre & Hlen & Hnw & before & after & ->).
      split; [exact Hpre|]. split; [exact Hlen|]. split; [exact Hnw|].
      exists (String c before), after. reflexivity.
Qed.

Lemma matched_url_witness :
  matchUrl ("Creating pull request" +:+ JS.nl
            +:+ "https://github.com/x/y/pull/2" +:+ JS.nl)
  = Some "https://github.com/x/y/pull/2"
  /\ noWhite "https://github.com/x/y/pull/2" = true.
Proof.
  assert (H : matchUrl ("Creating pull request" +:+ JS.nl
                        +:+ "https://github.com/x/y/pull/2" +:+ JS.nl)
              = Some "https://github.com/x/y/pull/2") by reflexivity.
  destruct (matched_url _ _ H) as (_ & _ & Hnw & _).
  split; [exact H | exact Hnw].
Defined.

(** *** Where the run stops *)

Section WithPlatform.
Context {P : Platform}.

Lemma ghp_main_ends :
  ends (fun _ => True) (fun _ => False) (fun c => c = 1) main.
Proof.
  unfold main, commitIfNeeded, pushBranch, updateExistingPR, editDescription,
    createNewPR, ensureBranchPushed, getCurrentBranch,
    hasUncommittedChanges, getCurrentPR, getPRContext, generatePRContent,
    executeClaudeCommand, getAnthropicApiKey, probeSession, readStoredKey,
    saveKey, responded, exec, execStream, fs, console, trigger.
  ends_tac.
Qed.

(** X14.  [main] of [ghp] never lets an error out, and every call of
    [process.exit] it makes is with status 1.  This holds when the
    questions at the terminal are answered, and when the terminal is at end
    of input, where [main] may also never settle. *)
Theorem ghp_throws_nothing (w : World) :
  (forall e, out (run main w) <> Thrown e)
  /\ (forall c, out (run main w) = Exited c -> c = 1)
  /\ (forall e, snd (runClosed main w) <> Settled (Thrown e))
  /\ (forall c, snd (runClosed main w) = Settled (Exited c) -> c = 1).
Proof.
  pose proof (ends_run _ _ _ _ ghp_main_ends w) as H.
  pose proof (ends_runClosed _ _ _ _ ghp_main_ends w) as Hc.
  split; [|split; [|split]].
  - intros e He. rewrite He in H. exact H.
  - intros c He. rewrite He in H. exact H.
  - intros e He. exact (Hc _ He).
  - intros c He. exact (Hc _ He).
Qed.

(** The run of [commitIfNeeded], whole. *)
Lemma run_commitIfNeeded (w : World) :
  let reads := run hasUncommittedChanges w in
  let node := "node " +:+ JS.quoted ghcPath in
  run commitIfNeeded w
  = match out reads with
    | Done true =>
        {| out := match proc w node (withShellInherit quiet) with
                  | inr _ => Done tt
                  | inl _ => Exited 1
                  end;
           trace := trace reads
                    ++ [Obs (Console Log "📝 Uncommitted changes detected...")
                          tt;
                        Obs (ExecaCommand node (withShellInherit quiet))
                          (proc w node (withShellInherit quiet))];
           final := w |}
    | _ => {| out := Done tt; trace := trace reads; final := w |}
    end.
Proof.
  cbn zeta. unfold commitIfNeeded. rewrite run_mbind. unfold extend.
  rewrite HelpersSpec.run_hasUncommittedChanges. cbn [out trace final].
  destruct (printed _ || printed _ || printed _); cbn.
  - unfold execStream. cbn.
    destruct (proc w ("node " +:+ JS.quoted ghcPath)
                (withShellInherit quiet)); reflexivity.
  - reflexivity.
Qed.

Lemma commitIfNeeded_no_gh :
  only (fun command => String.prefix "gh " command = false) commitIfNeeded.
Proof.
  unfold commitIfNeeded, hasUncommittedChanges, exec, execStream, console,
    trigger.
  repeat (cbn; only_step); reflexivity.
Qed.

Lemma pushBranch_no_gh (branch : string) :
  only (fun command => String.prefix "gh " command = false)
    (pushBranch branch).
Proof.
  unfold pushBranch, ensureBranchPushed, getCurrentBranch, exec, console,
    trigger.
  repeat (cbn; only_step); reflexivity.
Qed.

Lemma getCurrentBranch_no_gh :
  only (fun command => String.prefix "gh " command = false)
    getCurrentBranch.
Proof.
  unfold getCurrentBranch, exec, trigger.
  repeat (cbn; only_step); reflexivity.
Qed.

Lemma getCurrentPR_returns (w : World) :
  exists found, out (run getCurrentPR w) = Done found.
Proof.
  unfold getCurrentPR, exec. cbn.
  destruct (proc w "gh pr view --json url -q .url" (withShell noOptions));
    cbn; eauto.
Qed.

(** X15.  When the commit step or the push ends the run of [ghp], the run
    exits with status 1 at that step, and [ghp] itself has started no
    command of the hosting CLI: none of its own commands starts with
    [gh].  (The commit step runs [ghc] as a child process, whose commands
    are its own and are not commands of this run.) *)
Theorem failed_step_stops_ghp (w : World) (c : Z) :
  out (beforePR w) = Exited c ->
  out (run main w) = Exited 1
  /\ trace (run main w) = trace (beforePR w)
  /\ Forall (fun command => String.prefix "gh " command = false)
       (commands (trace (run main w))).
Proof.
  intros Hexit.
  assert (Hrun : run main w
                 = {| out := Exited c; trace := trace (beforePR w);
                      final := final (beforePR w) |}).
  { rewrite GhpSpec.run_main. unfold extend. rewrite Hexit. reflexivity. }
  pose proof (ends_run _ _ _ _ ghp_main_ends w) as Hc.
  rewrite Hrun in Hc |- *. simpl in Hc. subst c. cbn [out trace].
  split; [reflexivity|]. split; [reflexivity|].
  pose proof (only_run _ _ getCurrentBranch_no_gh w) as H0.
  unfold beforePR, extend in *.
  destruct (out (run getCurrentBranch w)) as [branch|e|c0]; [|exact H0..].
  set (w0 := final (run getCurrentBranch w)) in *.
  pose proof (only_run _ _ commitIfNeeded_no_gh w0) as H1.
  cbn [out trace final] in *. unfold commands in *.
  destruct (out (run commitIfNeeded w0)) as [[]|e|c0];
    cbn [out trace final] in *; rewrite omap_app;
    [|apply Forall_app; split; assumption..].
  set (w1 := final (run commitIfNeeded w0)) in *.
  pose proof (only_run _ _ (pushBranch_no_gh branch) w1) as H2.
  unfold commands in *.
  destruct (out (run (pushBranch branch) w1)) as [[]|e|c0];
    cbn [out trace final] in *; rewrite ?omap_app;
    [|repeat (apply Forall_app; split); assumption..].
  destruct (getCurrentPR_returns (final (run (pushBranch branch) w1)))
    as [found Hfound].
  rewrite Hfound in Hexit. discriminate.
Qed.

(** X16.  The branch of [main] without a pull request.  When no pull request is
    found and the content is generated, the file written and the creation
    accepted, the run ends well: the description of the content was written
    to the temporary file, the title of the content, with its quotes
    escaped, went to [gh pr create] with base [main] and the branch as
    head, and the file is gone at the end.  In no world does that branch
    start a command other than the reads of the repository, the calls of
    the AI CLI and such a creation. *)
Theorem new_pr_against_main (w : World)
    (branch context prContent output : string) :
  let found := beforePR w in
  let r1 := run getPRContext (final found) in
  let r2 := run (generatePRContent context) (final r1) in
  let tmpFile := tmpFileOf (tmpdir w) "pr-body" (now w) in
  let create := "gh pr create --title "
                +:+ JS.quoted (JS.escapeQuotes (titleOf prContent))
                +:+ " --body-file " +:+ JS.quoted tmpFile
                +:+ " --base main --head " +:+ JS.quoted branch in
  out found = Done (branch, None) ->
  out r1 = Done context ->
  out r2 = Done prContent ->
  fault w (OpWrite tmpFile) = None ->
  proc w create (withShell noOptions) = inr output ->
  fault w (OpUnlink tmpFile) = None ->
  let r := run main w in
  out r = Done tt
  /\ trace r = trace found ++ trace (run (createNewPR branch) (final found))
  /\ In (Obs (WriteFile tmpFile (descriptionOf prContent)) None)
       (trace (run (createNewPR branch) (final found)))
  /\ In (Obs (ExecaCommand create (withShell noOptions)) (inr output))
       (trace (run (createNewPR branch) (final found)))
  /\ files (final r) !! tmpFile = None
  /\ (forall w' : World,
        Forall (createCommand branch)
          (commands (trace (run (createNewPR branch) w')))).
Proof.
  intros found r1 r2 tmpFile create Hfound H1 H2 Hwrite Hcreate Hunlink r.
  destruct (same_outside_fields _ _ (GhpSpec.beforePR_same_outside w))
    as (Hproc & Hfault & Hnow & Htmp).
  fold found in Hproc, Hfault, Hnow, Htmp.
  assert (Hrun := GhpSpec.run_createNewPR (final found) branch context
                    prContent output).
  rewrite Hproc, Hfault, Hnow, Htmp in Hrun.
  specialize (Hrun H1 H2 Hwrite Hcreate Hunlink).
  fold tmpFile create in Hrun. cbn zeta in Hrun.
  destruct Hrun as (Hout & Hw & Hc & Hgone).
  assert (Hmain : r = {| out := Done tt;
                         trace := trace found
                                  ++ trace (run (createNewPR branch)
                                              (final found));
                         final := final (run (createNewPR branch)
                                           (final found)) |}).
  { subst r. rewrite GhpSpec.run_main. fold found. unfold extend.
    rewrite Hfound. unfold snd, fst. unfold recover.
    rewrite Hout. reflexivity. }
  rewrite Hmain. unfold out at 1, trace at 1, final at 1.
  split; [reflexivity|]. split; [reflexivity|].
  split; [exact Hw|]. split; [exact Hc|]. split; [exact Hgone|].
  intros w'. apply only_run.
  unfold createNewPR, getPRContext, generatePRContent,
    executeClaudeCommand, getAnthropicApiKey, probeSession, readStoredKey,
    saveKey, responded, exec, fs, console, trigger.
  repeat (cbn; only_step);
    try (left; cbn; tauto);
    try (right; eexists; eexists; reflexivity).
Qed.

End WithPlatform.

Lemma failed_step_stops_ghp_witness :
  out (@beforePR Fixtures.posix Fixtures.repoPushFails) = Exited 1
  /\ out (run (@main Fixtures.posix) Fixtures.repoPushFails) = Exited 1
  /\ commands (trace (run (@main Fixtures.posix) Fixtures.repoPushFails))
     = ["git branch --show-current"; "git diff --name-only";
        "git diff --cached --name-only";
        "git ls-files --others --exclude-standard";
        "git branch --show-current";
        "git rev-parse --abbrev-ref feature@{upstream}"; "git push"].
Proof.
  assert (H : out (@beforePR Fixtures.posix Fixtures.repoPushFails)
              = Exited 1) by (vm_compute; reflexivity).
  destruct (@failed_step_stops_ghp Fixtures.posix _ _ H) as (Hout & _ & _).
  split; [exact H|]. split; [exact Hout|]. vm_compute. reflexivity.
Defined.

Lemma new_pr_against_main_witness :
  out (@beforePR Fixtures.posix Fixtures.repoWithoutPR)
  = Done ("feature", None)
  /\ out (run (@main Fixtures.posix) Fixtures.repoWithoutPR) = Done tt
  /\ files (final (run (@main Fixtures.posix) Fixtures.repoWithoutPR))
       !! "/tmp/pr-body-1700000000000.md" = None.
Proof.
  pose (context := "Diff summary:" +:+ JS.nl +:+ JS.nl +:+ JS.nl
                   +:+ "Commits:" +:+ JS.nl +:+ JS.nl +:+ JS.nl
                   +:+ "Sample changes:" +:+ JS.nl).
  pose (prContent := "Add widget support" +:+ JS.nl +:+ JS.nl +:+ "Summary"
                     +:+ JS.nl +:+ "- widgets").
  assert (H0 : out (@beforePR Fixtures.posix Fixtures.repoWithoutPR)
               = Done ("feature", None)) by (vm_compute; reflexivity).
  assert (H1 : out (run getPRContext
                      (final (@beforePR Fixtures.posix
                                Fixtures.repoWithoutPR)))
               = Done context) by (vm_compute; reflexivity).
  assert (H2 : out (run (@generatePRContent Fixtures.posix context)
                      (final (run getPRContext
                                (final (@beforePR Fixtures.posix
                                          Fixtures.repoWithoutPR)))))
               = Done prContent) by (vm_compute; reflexivity).
  destruct (@new_pr_against_main Fixtures.posix Fixtures.repoWithoutPR
              "feature" context prContent EmptyString H0 H1 H2)
    as (Hout & _ & _ & _ & Hgone & _); try (vm_compute; reflexivity).
  split; [exact H0|]. split; [exact Hout | exact Hgone].
Defined.

Lemma ghp_throws_nothing_witness :
  out (run (@main Fixtures.posix) Fixtures.bare) = Exited 1
  /\ (1 : Z) = 1.
Proof.
  assert (H : out (run (@main Fixtures.posix) Fixtures.bare) = Exited 1)
    by reflexivity.
  split; [exact H|].
  exact (proj1 (proj2 (@ghp_throws_nothing Fixtures.posix Fixtures.bare))
           1 H).
Defined.

End GhpMore.

(** ** Runs in a given world *)

Module FollowsFacts.
Import Sys Helpers Observe Outcomes SysFacts.

Lemma follows_weaken (w : World) {R}
    (post post' : list string -> outcome R -> Prop) (p : prog R) :
  (forall cmds o, post cmds o -> post' cmds o) ->
  follows w post p -> follows w post' p.
Proof.
  intros Himp Hp. revert post' Himp.
  induction Hp as [post r H|post e H|post c H|post command options k _ IH
                  |post X ev k Hev _ IH]; intros post' Himp.
  - constructor. auto.
  - constructor. auto.
  - constructor. auto.
  - constructor. apply IH. intros cmds o. apply Himp.
  - constructor; [exact Hev|]. intros x. apply IH. exact Himp.
Qed.

(** What [follows w] promises holds of the run in [w], and in every world
    whose commands end as in [w]. *)
Lemma follows_run (w : World) {R}
    (post : list string -> outcome R -> Prop) (p : prog R) :
  follows w post p ->
  forall w', proc w' = proc w ->
  post (commands (trace (run p w'))) (out (run p w')).
Proof.
  intros Hp.
  induction Hp as [post r H|post e H|post c H|post command options k _ IH
                  |post X ev k Hev _ IH]; intros w' Hproc;
    try exact H.
  - simpl. rewrite Hproc. apply (IH w' Hproc).
  - pose proof (handle_same_outside ev w') as Hsame.
    cbn [run]. destruct (handle ev w') as [x w1]. cbn [snd] in Hsame.
    destruct (same_outside_fields _ _ Hsame) as (Hp1 & _).
    assert (Hc : commands (Obs ev x :: trace (run (k x) w1))
                 = commands (trace (run (k x) w1))).
    { unfold commands. simpl. destruct ev; try discriminate; reflexivity. }
    cbn [out trace]. rewrite Hc. apply IH. congruence.
Qed.

(** And of the run in [w] with the terminal at end of input, when it
    settles. *)
Lemma follows_runClosed (w : World) {R}
    (post : list string -> outcome R -> Prop) (p : prog R) :
  follows w post p ->
  forall w' o, proc w' = proc w ->
  snd (runClosed p w') = Settled o ->
  post (commands (fst (runClosed p w'))) o.
Proof.
  intros Hp.
  induction Hp as [post r H|post e H|post c H|post command options k _ IH
                  |post X ev k Hev _ IH]; intros w' o Hproc;
    try (cbn; intros [= <-]; exact H).
  - cbn. rewrite Hproc. specialize (IH w' o Hproc).
    destruct (runClosed (k (proc w command options)) w') as [t e].
    exact IH.
  - pose proof (handle_same_outside ev w') as Hsame.
    cbn [runClosed]. destruct (isQuestion ev); [discriminate|].
    destruct (handle ev w') as [x w1]. cbn [snd] in Hsame.
    destruct (same_outside_fields _ _ Hsame) as (Hp1 & _).
    assert (Hproc1 : proc w1 = proc w) by congruence.
    specialize (IH x w1 o Hproc1).
    destruct (runClosed (k x) w1) as [t e]. cbn [fst snd] in *.
    assert (Hc : commands (Obs ev x :: t) = commands t).
    { unfold commands. simpl. destruct ev; try discriminate; reflexivity. }
    rewrite Hc. exact IH.
Qed.

Lemma follows_here (w : World) {R}
    (post : list string -> outcome R -> Prop) (p : prog R) :
  follows w post p ->
  post (commands (trace (run p w))) (out (run p w)).
Proof. intros Hp. exact (follows_run w post p Hp w eq_refl). Qed.

(** A first part with its own promise, then what follows it. *)
Lemma follows_bind (w : World) {A B}
    (postA : list string -> outcome A -> Prop)
    (post : list string -> outcome B -> Prop)
    (p : prog A) (f : A -> prog B) :
  follows w postA p ->
  (forall cmds a, postA cmds (Done a) ->
                  follows w (fun more o => post (cmds ++ more) o) (f a)) ->
  (forall cmds e, postA cmds (Thrown e) -> post cmds (Thrown e)) ->
  (forall cmds c, postA cmds (Exited c) -> post cmds (Exited c)) ->
  follows w post (bind p f).
Proof.
  intros Hp. revert post.
  induction Hp as [postA r H|postA e H|postA c H|postA command options k _ IH
                  |postA X ev k Hev _ IH]; intros post Hf Ht He; simpl.
  - apply (Hf [] r H).
  - constructor. apply (Ht [] e H).
  - constructor. apply (He [] c H).
  - constructor. apply IH.
    + intros cmds a Ha. apply (Hf (command :: cmds) a Ha).
    + intros cmds e. apply Ht.
    + intros cmds c. apply He.
  - constructor; [exact Hev|]. intros x. apply IH; assumption.
Qed.

(** The same inside a [try]: what the first part throws goes to the
    handler. *)
Lemma follows_try_bind (w : World) {A B}
    (postA : list string -> outcome A -> Prop)
    (post : list string -> outcome B -> Prop)
    (p : prog A) (f : A -> prog B) (h : JsError -> prog B) :
  follows w postA p ->
  (forall cmds a, postA cmds (Done a) ->
                  follows w (fun more o => post (cmds ++ more) o)
                    (try_catch (f a) h)) ->
  (forall cmds e, postA cmds (Thrown e) ->
                  follows w (fun more o => post (cmds ++ more) o) (h e)) ->
  (forall cmds c, postA cmds (Exited c) -> post cmds (Exited c)) ->
  follows w post (try_catch (bind p f) h).
Proof.
  intros Hp. revert post.
  induction Hp as [postA r H|postA e H|postA c H|postA command options k _ IH
                  |postA X ev k Hev _ IH]; intros post Hf Ht He; simpl.
  - apply (Hf [] r H).
  - apply (Ht [] e H).
  - constructor. apply (He [] c H).
  - constructor. apply IH.
    + intros cmds a Ha. apply (Hf (command :: cmds) a Ha).
    + intros cmds e He'. apply (Ht (command :: cmds) e He').
    + intros cmds c. apply He.
  - constructor; [exact Hev|]. intros x. apply IH; assumption.
Qed.

Lemma follows_try_mbind (w : World) {A B}
    (postA : list string -> outcome A -> Prop)
    (post : list string -> outcome B -> Prop)
    (p : prog A) (f : A -> prog B) (h : JsError -> prog B) :
  follows w postA p ->
  (forall cmds a, postA cmds (Done a) ->
                  follows w (fun more o => post (cmds ++ more) o)
                    (try_catch (f a) h)) ->
  (forall cmds e, postA cmds (Thrown e) ->
                  follows w (fun more o => post (cmds ++ more) o) (h e)) ->
  (forall cmds c, postA cmds (Exited c) -> post cmds (Exited c)) ->
  follows w post (try_catch (p ≫= f) h).
Proof. apply follows_try_bind. Qed.

(** What [try] makes of a promise. *)
Lemma follows_try_catch (w : World) {A}
    (postA post : list string -> outcome A -> Prop)
    (p : prog A) (h : JsError -> prog A) :
  follows w postA p ->
  (forall cmds a, postA cmds (Done a) -> post cmds (Done a)) ->
  (forall cmds e, postA cmds (Thrown e) ->
                  follows w (fun more o => post (cmds ++ more) o) (h e)) ->
  (forall cmds c, postA cmds (Exited c) -> post cmds (Exited c)) ->
  follows w post (try_catch p h).
Proof.
  intros Hp. revert post.
  induction Hp as [postA r H|postA e H|postA c H|postA command options k _ IH
                  |postA X ev k Hev _ IH]; intros post Hf Ht He; simpl.
  - constructor. apply (Hf [] r H).
  - apply (Ht [] e H).
  - constructor. apply (He [] c H).
  - constructor. apply IH.
    + intros cmds a. apply Hf.
    + intros cmds e He'. apply (Ht (command :: cmds) e He').
    + intros cmds c. apply He.
  - constructor; [exact Hev|]. intros x. apply IH; assumption.
Qed.

Lemma follows_consoleLines (w : World)
    (post : list string -> outcome unit -> Prop) (lines : list string) :
  post [] (Done tt) -> follows w post (consoleLines lines).
Proof.
  intros H. induction lines as [|line rest IH]; cbn.
  - constructor. exact H.
  - constructor; [reflexivity|]. intros _. exact IH.
Qed.

(** What a program that cannot start looks at first. *)
Ltac scrutinee p :=
  match p with
  | match ?x with _ => _ end => x
  | bind ?q _ => scrutinee q
  | mbind _ ?q => scrutinee q
  | try_catch ?q _ => scrutinee q
  end.

(** One step on a goal [follows w post p], by the shape of [p]: a command
    is answered by [w], and the answer taken apart. *)
Ltac follows_step :=
  match goal with
  | |- follows _ _ (Ret _) => apply follows_Ret
  | |- follows _ _ (Throw _) => apply follows_Throw
  | |- follows _ _ (Exit _) => apply follows_Exit
  | |- follows _ _ (Vis (ExecaCommand _ _) _) => apply follows_Exec
  | |- follows _ _ (Vis _ _) => apply follows_Vis; [reflexivity | intros]
  | |- follows _ _ ?p => let x := scrutinee p in destruct x eqn:?
  end.

(** The answers of the world, put back into a goal about them. *)
Ltac answers :=
  repeat match goal with
         | H : proc _ _ _ = _ |- _ => progress rewrite H
         end.

End FollowsFacts.

(** ** The commit command ([src/bin/ghc.ts]) *)

Module GhcSpec.
Import Sys Helpers Ghc Observe Outcomes SysFacts OutcomesFacts FollowsFacts.

Section WithPlatform.
Context {P : Platform}.

(** What the AI client returns in [w], and the commands it starts. *)
Lemma executeClaudeCommand_follows (w : World) (prompt_ input_ : string) :
  follows w
    (fun cmds o =>
       Forall (fun c => String.prefix "claude --" c = true) cmds
       /\ match o with
          | Done text =>
              exists options stdout,
                proc w (claudeCommand prompt_) options = inr stdout
                /\ input options = Some input_
                /\ text = JS.trim stdout
          | Thrown _ => True
          | Exited _ => False
          end)
    (executeClaudeCommand prompt_ input_).
Proof.
  unfold executeClaudeCommand, getAnthropicApiKey, probeSession,
    readStoredKey, saveKey, responded, exec, fs, console, trigger.
  repeat (cbn; follows_step); cbn;
    (split; [repeat constructor|]); try exact I;
    eexists; eexists; (split; [eassumption|]); split; reflexivity.
Qed.

Lemma generateCommitMessage_follows (w : World) (diff : string) :
  follows w
    (fun cmds o =>
       Forall (fun c => String.prefix "claude --" c = true) cmds
       /\ match o with
          | Done text =>
              exists options stdout,
                proc w (claudeCommand commitPrompt) options = inr stdout
                /\ input options = Some (Diff.limitDiffForCommit diff)
                /\ text = JS.trim stdout
          | Thrown _ => True
          | Exited _ => False
          end)
    (generateCommitMessage diff).
Proof.
  unfold generateCommitMessage.
  eapply follows_try_catch; [apply executeClaudeCommand_follows|..].
  - intros cmds a H. exact H.
  - intros cmds e [H _]. unfold console, trigger. cbn.
    apply follows_Vis; [reflexivity|]. intros _. apply follows_Throw.
    rewrite app_nil_r. split; [exact H | exact I].
  - intros cmds c H. exact H.
Qed.

#[local] Arguments generateCommitMessage : simpl never.

(** One step of [main]: the generation of the message is taken whole. *)
Ltac ghc_step :=
  first
    [ follows_step
    | eapply follows_try_mbind;
      [ apply generateCommitMessage_follows
      | intros ? ? [? ?] | intros ? ? [? _] | intros ? ? [_ []] ] ].

Lemma ghc_exit_0 (w : World) :
  follows w
    (fun _ o =>
       o = Exited 0 ->
       clean w = true
       \/ exists diff options stdout,
            proc w "git diff --cached" (withShell noOptions) = inr diff
            /\ JS.truthy diff = true
            /\ proc w (claudeCommand commitPrompt) options = inr stdout
            /\ input options = Some (Diff.limitDiffForCommit diff)
            /\ succeeds w
                 ("git commit -m " +:+ JS.quoted (JS.trim stdout))
                 (withShell noOptions))
    main.
Proof.
  unfold main, commitWith, hasUncommittedChanges, hasStagedChanges,
    stageAllChanges, getCurrentPR, exec, console, trigger.
  repeat (cbn; ghc_step); cbn;
    try (let Hexit := fresh in intros Hexit; discriminate Hexit).
  all: intros _.
  all: try congruence.
  all: try (left; unfold clean; answers; cbn;
            first [reflexivity | assumption]).
  all: match goal with
       | H : exists _ _, _ /\ _ /\ _ |- _ =>
           destruct H as (options & stdout & Hcall & Hinput & ->)
       end.
  all: right; eexists; exists options, stdout.
  all: split; [reflexivity|].
  all: split;
    [match goal with
     | H : negb (JS.truthy ?d) = false |- JS.truthy ?d = true =>
         destruct (JS.truthy d); [reflexivity | discriminate H]
     end|].
  all: split; [exact Hcall|]; split; [exact Hinput|].
  all: eexists; eassumption.
Qed.

(** X17.  [main] of [ghc] calls [process.exit(0)] in two cases only, whether
    the questions at the terminal are answered or the terminal is at end
    of input.  Either the three reads of the work tree printed nothing:
    there was nothing to commit.  Or the staged diff was not empty, a
    completion call of the AI CLI that got this diff, cut by the commit
    policy, on its standard input succeeded, and [git commit -m] with the
    trimmed output of that call as message succeeded.  (A run that never
    settles makes no such call.) *)
Theorem exit_0_means_committed (w : World) :
  out (run main w) = Exited 0
  \/ snd (runClosed main w) = Settled (Exited 0) ->
  clean w = true
  \/ exists diff options stdout,
       proc w "git diff --cached" (withShell noOptions) = inr diff
       /\ JS.truthy diff = true
       /\ proc w (claudeCommand commitPrompt) options = inr stdout
       /\ input options = Some (Diff.limitDiffForCommit diff)
       /\ succeeds w ("git commit -m " +:+ JS.quoted (JS.trim stdout))
            (withShell noOptions).
Proof.
  intros [H | H].
  - exact (follows_here _ _ _ (ghc_exit_0 w) H).
  - exact (follows_runClosed _ _ _ (ghc_exit_0 w) w _ eq_refl H eq_refl).
Qed.

Lemma no_add_in_ai (cmds : list string) :
  Forall (fun c => String.prefix "claude --" c = true) cmds ->
  existsb (String.eqb "git add -A") cmds = false.
Proof.
  induction 1 as [|c cmds Hc _ IH]; [reflexivity|].
  cbn [existsb]. rewrite IH, orb_false_r.
  destruct (String.eqb_spec "git add -A" c) as [<-|]; [|reflexivity].
  discriminate Hc.
Qed.

(** The tests of the goal and of the context, taken apart. *)
Ltac bools :=
  repeat match goal with
         | H : context [JS.truthy _] |- _ => revert H
         end;
  repeat match goal with
         | |- context [JS.truthy ?s] => destruct (JS.truthy s)
         end;
  cbn; intros; try discriminate; try reflexivity.

#[local] Arguments started : simpl never.

Lemma ghc_stages (w : World) :
  follows w
    (fun cmds _ =>
       started "git add -A" cmds
       = negb (clean w)
         && negb (printed (proc w "git diff --cached --name-only"
                             (withShell quiet))))
    main.
Proof.
  unfold main, commitWith, hasUncommittedChanges, hasStagedChanges,
    stageAllChanges, getCurrentPR, exec, console, trigger.
  repeat (cbn; ghc_step); unfold clean, started; answers; simplify_eq;
    cbn [existsb printed negb orb andb JS.truthy_opt app];
    rewrite ?existsb_app;
    try match goal with
        | H : Forall _ ?cmds |- _ => rewrite (no_add_in_ai cmds H)
        end;
    bools.
Qed.

(** X18.  [ghc] starts [git add -A] exactly when the work tree has changes and
    the read of the staged files printed nothing. *)
Theorem stages_iff_nothing_staged (w : World) :
  In "git add -A" (commands (trace (run main w)))
  <-> clean w = false
      /\ printed (proc w "git diff --cached --name-only" (withShell quiet))
         = false.
Proof.
  pose proof (follows_here _ _ _ (ghc_stages w)) as H. cbn beta in H.
  unfold started in H.
  rewrite <- negb_true_iff, <- (negb_true_iff (printed _)),
    <- andb_true_iff, <- H, existsb_exists.
  split.
  - intros Hin. exists "git add -A". split; [exact Hin | reflexivity].
  - intros (c & Hin & Heq). apply String.eqb_eq in Heq. subst c. exact Hin.
Qed.

Lemma ghc_without_diff (w : World) :
  follows w
    (fun cmds o =>
       printed (proc w "git diff --cached" (withShell noOptions)) = false ->
       Forall (fun c => String.prefix "claude" c = false
                        /\ String.prefix "git commit" c = false) cmds
       /\ (clean w = false -> o = Exited 1))
    main.
Proof.
  unfold main, commitWith, hasUncommittedChanges, hasStagedChanges,
    stageAllChanges, getCurrentPR, exec, console, trigger.
  repeat (cbn; ghc_step); unfold clean; answers; simplify_eq;
    cbn [printed negb orb andb JS.truthy_opt app];
    bools; (split; [repeat constructor | congruence]).
Qed.

(** X19.  When [git diff --cached] fails or prints nothing, [ghc] starts neither
    the AI CLI nor a commit; and if the work tree had changes, it exits
    with status 1. *)
Theorem no_diff_no_commit (w : World) :
  printed (proc w "git diff --cached" (withShell noOptions)) = false ->
  Forall (fun c => String.prefix "claude" c = false
                   /\ String.prefix "git commit" c = false)
    (commands (trace (run main w)))
  /\ (clean w = false -> out (run main w) = Exited 1).
Proof. exact (follows_here _ _ _ (ghc_without_diff w)). Qed.

Lemma ghc_main_ends :
  ends (fun _ => False) (fun _ => False) (fun c => c = 0 \/ c = 1) main.
Proof.
  unfold main, commitWith, hasUncommittedChanges, hasStagedChanges,
    stageAllChanges, getCurrentPR, generateCommitMessage,
    executeClaudeCommand, getAnthropicApiKey, probeSession, readStoredKey,
    saveKey, responded, exec, fs, console, trigger.
  ends_tac.
Qed.

(** X20.  [main] of [ghc] never returns and never lets an error out.  When
    the questions at the terminal are answered, its run ends in
    [process.exit] with status 0 or 1.  When the terminal is at end of
    input, its run ends in the same way or never settles. *)
Theorem ghc_ends_by_exit (w : World) :
  (out (run main w) = Exited 0 \/ out (run main w) = Exited 1)
  /\ (snd (runClosed main w) = Pending
      \/ snd (runClosed main w) = Settled (Exited 0)
      \/ snd (runClosed main w) = Settled (Exited 1)).
Proof.
  split.
  - pose proof (ends_run _ _ _ _ ghc_main_ends w) as H.
    destruct (out (run main w)) as [r|e|c]; simpl in H; try contradiction.
    destruct H as [-> | ->]; [left | right]; reflexivity.
  - pose proof (ends_runClosed _ _ _ _ ghc_main_ends w) as H.
    destruct (snd (runClosed main w)) as [o|]; [|left; reflexivity].
    specialize (H o eq_refl).
    destruct o as [r|e|c]; simpl in H; try contradiction.
    destruct H as [-> | ->]; right; [left | right]; reflexivity.
Qed.

(** X21.  The commit itself.  [commitWith] starts [git commit -m] with the
    message between double quotes.  When the commit succeeds it asks for
    the pull request of the branch and exits with status 0, whatever the
    answer; when it fails it asks for nothing more, prints the message of
    the error and exits with status 1. *)
Theorem commit_outcome (w : World) (commitMsg : string) :
  let commit := "git commit -m " +:+ JS.quoted commitMsg in
  let r := run (commitWith commitMsg) w in
  match proc w commit (withShell noOptions) with
  | inr _ =>
      out r = Exited 0
      /\ commands (trace r) = [commit; "gh pr view --json url -q .url"]
  | inl error =>
      out r = Exited 1
      /\ commands (trace r) = [commit]
      /\ In (Log, message error) (written (trace r))
  end.
Proof.
  cbn zeta. unfold commitWith, getCurrentPR, exec, console, trigger. cbn.
  destruct (proc w ("git commit -m " +:+ JS.quoted commitMsg)
              (withShell noOptions)) as [error|stdout]; cbn.
  - split; [reflexivity|]. split; [reflexivity|]. right. right. left.
    reflexivity.
  - destruct (proc w "gh pr view --json url -q .url" (withShell noOptions))
      as [e|url]; cbn; [split; reflexivity|].
    destruct (JS.truthy url) eqn:E; cbn; rewrite ?E; cbn; split;
      reflexivity.
Qed.

End WithPlatform.

Lemma exit_0_means_committed_witness :
  out (run (@main Fixtures.posix) Fixtures.repoWithStagedChange) = Exited 0
  /\ @clean Fixtures.posix Fixtures.repoWithStagedChange = false
  /\ succeeds Fixtures.repoWithStagedChange
       ("git commit -m " +:+ JS.quoted "feat: add widgets")
       (withShell noOptions).
Proof.
  assert (H : out (run (@main Fixtures.posix) Fixtures.repoWithStagedChange)
              = Exited 0) by (vm_compute; reflexivity).
  split; [exact H|]. split; [vm_compute; reflexivity|].
  destruct (@exit_0_means_committed Fixtures.posix _ (or_introl H))
    as [Hclean | (diff & options & stdout & _ & _ & Hcall & _ & Hcommit)].
  - vm_compute in Hclean. discriminate Hclean.
  - vm_compute in Hcall. injection Hcall as <-. exact Hcommit.
Defined.

(** With no key in the environment, no session and no config file, [ghc]
    asks for a key: with the terminal at end of input its run never
    settles; with an empty line it exits with status 1. *)
Lemma ghc_ends_by_exit_witness :
  snd (runClosed (@main Fixtures.posix) Fixtures.repoWithoutKey) = Pending
  /\ out (run (@main Fixtures.posix) Fixtures.repoWithoutKey) = Exited 1.
Proof.
  split; [vm_compute; reflexivity|].
  destruct (proj1 (@ghc_ends_by_exit Fixtures.posix Fixtures.repoWithoutKey))
    as [H | H]; [|exact H].
  vm_compute in H. discriminate H.
Defined.

Lemma no_diff_no_commit_witness :
  @clean Fixtures.posix Fixtures.repoWithIgnoredFile = false
  /\ out (run (@main Fixtures.posix) Fixtures.repoWithIgnoredFile) = Exited 1.
Proof.
  split; [vm_compute; reflexivity|].
  apply (@no_diff_no_commit Fixtures.posix Fixtures.repoWithIgnoredFile);
    vm_compute; reflexivity.
Defined.

End GhcSpec.

(** ** Commit and push ([src/bin/ghcp.ts]) *)

Module GhcpSpec.
Import Sys Helpers Ghcp Observe Outcomes SysFacts OutcomesFacts FollowsFacts.

Section WithPlatform.
Context {P : Platform}.

Lemma ghcp_only : only ghcpCommand main.
Proof.
  unfold main, ensureBranchPushed, getCurrentBranch, getCurrentPR, exec,
    execStream, console, trigger.
  repeat (cbn; only_step);
    try (left; cbn; tauto);
    try (right; eexists; left; reflexivity);
    try (right; eexists; right; reflexivity).
Qed.

Lemma ghcp_ends :
  ends (fun _ => True) (fun _ => False) (fun c => c = 1) main.
Proof.
  unfold main, ensureBranchPushed, getCurrentBranch, getCurrentPR, exec,
    execStream, console, trigger.
  ends_tac.
Qed.

Lemma ghcpCommand_no_pr_change (command : string) :
  ghcpCommand command ->
  String.prefix "gh pr create" command = false
  /\ String.prefix "gh pr edit" command = false
  /\ String.prefix "claude" command = false.
Proof.
  intros [Hin | (branch & [-> | ->])]; [|split; [|split]; reflexivity..].
  cbn in Hin.
  destruct Hin as [<-|[<-|[<-|[<-|[]]]]]; split; try split; reflexivity.
Qed.

(** X22.  [ghcp] starts only the commit command, the reads of the branch and of
    its upstream, a push and the query for a pull request: it never creates
    or edits a pull request and never calls the AI CLI itself.  It lets no
    error out, and every exit it takes is with status 1. *)
Theorem ghcp_never_opens_pr (w : World) :
  Forall ghcpCommand (commands (trace (run main w)))
  /\ Forall (fun command =>
              String.prefix "gh pr create" command = false
              /\ String.prefix "gh pr edit" command = false
              /\ String.prefix "claude" command = false)
       (commands (trace (run main w)))
  /\ (forall e, out (run main w) <> Thrown e)
  /\ (forall c, out (run main w) = Exited c -> c = 1).
Proof.
  pose proof (only_run _ _ ghcp_only w) as Hc.
  split; [exact Hc|]. split.
  - eapply Forall_impl; [exact Hc|]. apply ghcpCommand_no_pr_change.
  - pose proof (ends_run _ _ _ _ ghcp_ends w) as H.
    destruct (out (run main w)); simpl in H; split; intros; congruence.
Qed.

Lemma ghcp_done (w : World) :
  follows w
    (fun _ o =>
       o = Done tt ->
       succeeds w ("node " +:+ JS.quoted ghcPath) (withShellInherit quiet)
       /\ exists branch,
            proc w "git branch --show-current" (withShell noOptions)
            = inr branch
            /\ succeeds w
                 (if printed (proc w ("git rev-parse --abbrev-ref "
                                      +:+ branch +:+ "@{upstream}")
                                (withShell quiet))
                  then "git push"
                  else "git push -u origin " +:+ branch)
                 (withShell noOptions))
    main.
Proof.
  unfold main, ensureBranchPushed, getCurrentBranch, getCurrentPR, exec,
    execStream, console, trigger.
  repeat (cbn; follows_step); cbn;
    try (let Hexit := fresh in intros Hexit; discriminate Hexit);
    intros _; simplify_eq;
    (split; [eexists; eassumption|]); eexists; (split; [reflexivity|]);
    answers; cbn [printed];
    repeat match goal with
           | H : negb (JS.truthy ?s) = _ |- _ =>
               destruct (JS.truthy s); try discriminate H; clear H
           | H : JS.truthy ?s = _ |- _ => rewrite H
           end;
    eexists; eassumption.
Qed.

(** X23.  When [ghcp] returns, the commit command succeeded, and so did the push
    of the branch that git printed: [git push] when the read of the
    upstream printed one, [git push -u origin <branch>] otherwise. *)
Theorem done_means_pushed (w : World) :
  out (run main w) = Done tt ->
  succeeds w ("node " +:+ JS.quoted ghcPath) (withShellInherit quiet)
  /\ exists branch,
       proc w "git branch --show-current" (withShell noOptions) = inr branch
       /\ succeeds w
            (if printed (proc w ("git rev-parse --abbrev-ref "
                                 +:+ branch +:+ "@{upstream}")
                           (withShell quiet))
             then "git push"
             else "git push -u origin " +:+ branch)
            (withShell noOptions).
Proof. exact (follows_here _ _ _ (ghcp_done w)). Qed.

(** X24.  When the commit command fails, [ghcp] exits with status 1 and has
    started nothing else: no read of the branch, no push. *)
Theorem stops_when_commit_fails (w : World) (e : JsError) :
  proc w ("node " +:+ JS.quoted ghcPath) (withShellInherit quiet) = inl e ->
  out (run main w) = Exited 1
  /\ commands (trace (run main w)) = ["node " +:+ JS.quoted ghcPath].
Proof.
  intros He. unfold main, execStream, console, trigger. cbn.
  rewrite He. cbn. split; reflexivity.
Qed.

End WithPlatform.

Lemma done_means_pushed_witness :
  out (run (@main Fixtures.posix) Fixtures.repoWithPR) = Done tt
  /\ succeeds Fixtures.repoWithPR "git push" (withShell noOptions).
Proof.
  assert (H : out (run (@main Fixtures.posix) Fixtures.repoWithPR)
              = Done tt) by (vm_compute; reflexivity).
  split; [exact H|].
  destruct (@done_means_pushed Fixtures.posix _ H)
    as (_ & branch & Hb & Hpush).
  vm_compute in Hb. injection Hb as <-. exact Hpush.
Defined.

Lemma stops_when_commit_fails_witness :
  out (run (@main Fixtures.posix) Fixtures.bare) = Exited 1
  /\ commands (trace (run (@main Fixtures.posix) Fixtures.bare))
     = ["node " +:+ JS.quoted (@ghcPath Fixtures.posix)].
Proof.
  apply (@stops_when_commit_fails Fixtures.posix Fixtures.bare
           (Fixtures.exited 127)).
  reflexivity.
Defined.

End GhcpSpec.

(** ** Pull request with auto-merge ([src/bin/ghpa.ts]) *)

Module GhpaSpec.
Import Sys Helpers Ghpa Observe Outcomes SysFacts.

(** X25.  [ghpa] runs [ghp] first.  When [ghp] fails it exits with status 1 and
    the merge is not asked for.  When [ghp] succeeds it asks for the
    auto-merge, with squash, and returns whether the request succeeds or
    not: a refused request is reported on the console and is not an
    error. *)
Theorem auto_merge_is_optional (w : World) (ghpPath : string) :
  let node := "node " +:+ JS.quoted ghpPath in
  let merge := "gh pr merge --auto --squash" in
  let r := run (main ghpPath) w in
  match proc w node (withShellInherit quiet) with
  | inl _ => out r = Exited 1 /\ commands (trace r) = [node]
  | inr _ =>
      out r = Done tt
      /\ commands (trace r) = [node; merge]
      /\ last (written (trace r))
         = Some (Log,
                 match proc w merge (withShell noOptions) with
                 | inr _ => "✓ Auto-merge enabled"
                 | inl _ =>
                     "⚠️  Could not enable auto-merge (may already be enabled or checks pending)"
                 end)
  end.
Proof.
  cbn zeta. unfold main, exec, execStream, console, trigger. cbn.
  destruct (proc w ("node " +:+ JS.quoted ghpPath) (withShellInherit quiet))
    as [e|stdout]; cbn; [split; reflexivity|].
  destruct (proc w "gh pr merge --auto --squash" (withShell noOptions))
    as [e|merged]; cbn; repeat split; reflexivity.
Qed.

End GhpaSpec.

(** ** New branch ([ghn]) *)

Module GhnSpec.
Import Sys Helpers Ghn Observe Outcomes SysFacts.

(** X26.  Without a branch name, or with an empty one, [ghn] prints its usage on
    the error stream and exits with status 1: it starts no command. *)
Theorem needs_a_name (w : World) (argv : list string) :
  JS.truthy_opt (argv !! 2%nat) = false ->
  out (run (main argv) w) = Exited 1
  /\ commands (trace (run (main argv) w)) = []
  /\ written (trace (run (main argv) w))
     = [(Err, "Usage: ghn <branch-name>")].
Proof.
  intros Hname. unfold main. rewrite Hname. cbn. repeat split; reflexivity.
Qed.

(** X27.  With a branch name, [ghn] fetches from [origin] and then creates the
    branch from [origin/main], its name between double quotes.  A failed
    fetch ends the run with status 1 before any checkout; a failed
    checkout ends it with status 1; [ghn] returns only when both
    succeeded. *)
Theorem checkout_after_fetch (w : World) (argv : list string)
    (branchName : string) :
  argv !! 2%nat = Some branchName ->
  JS.truthy branchName = true ->
  let fetch := "git fetch origin" in
  let checkout := "git checkout -b " +:+ JS.quoted branchName
                  +:+ " origin/main" in
  let r := run (main argv) w in
  match proc w fetch (withShell noOptions) with
  | inl _ => out r = Exited 1 /\ commands (trace r) = [fetch]
  | inr _ =>
      commands (trace r) = [fetch; checkout]
      /\ out r = match proc w checkout (withShell noOptions) with
                 | inr _ => Done tt
                 | inl _ => Exited 1
                 end
  end.
Proof.
  intros Hargv Hname. cbn zeta. unfold main. rewrite Hargv.
  cbn [JS.truthy_opt orEmpty]. rewrite Hname.
  unfold exec, console, trigger. cbn.
  destruct (proc w "git fetch origin" (withShell noOptions)) as [e|fetched];
    cbn; [split; reflexivity|].
  destruct (proc w ("git checkout -b " +:+ JS.quoted branchName
                    +:+ " origin/main") (withShell noOptions))
    as [e|switched]; cbn; split; reflexivity.
Qed.

Lemma needs_a_name_witness :
  out (run (main ["node"; "ghn"]) Fixtures.repoWithPR)
  = Exited 1.
Proof.
  apply (needs_a_name Fixtures.repoWithPR ["node"; "ghn"]).
  reflexivity.
Defined.

Lemma checkout_after_fetch_witness :
  commands (trace (run (main ["node"; "ghn"; "topic"])
                     Fixtures.repoWithPR))
  = ["git fetch origin";
     "git checkout -b " +:+ JS.quoted "topic" +:+ " origin/main"]
  /\ out (run (main ["node"; "ghn"; "topic"])
            Fixtures.repoWithPR) = Done tt.
Proof.
  exact (checkout_after_fetch Fixtures.repoWithPR
           ["node"; "ghn"; "topic"] "topic" eq_refl eq_refl).
Defined.

End GhnSpec.

(** ** The check of the requirements
       ([src/scripts/check-requirements.ts], [scripts/check-requirements.js]) *)

Module CheckSpec.
Import Sys CheckRequirements Observe Outcomes SysFacts.

(** One check: [which], and what it says. *)
Lemma run_checkCommand (w : World) (command name installInstructions : string) :
  out (run (checkCommand command name installInstructions) w)
  = Done (installed w command)
  /\ commands (trace (run (checkCommand command name installInstructions) w))
     = ["which " +:+ command]
  /\ final (run (checkCommand command name installInstructions) w) = w.
Proof.
  unfold checkCommand, execAsync, installed, console, trigger. cbn.
  destruct (proc w ("which " +:+ command) noOptions); cbn;
    repeat split; reflexivity.
Qed.

Lemma run_checkEach (w : World) (todo : list CommandCheck) (allGood : bool) :
  out (run (checkEach todo allGood) w)
  = Done (allGood && forallb (fun check => installed w (command check)) todo)
  /\ commands (trace (run (checkEach todo allGood) w))
     = (if allGood then map whichOf (upToMissing w todo) else [])
  /\ final (run (checkEach todo allGood) w) = w.
Proof.
  revert allGood. induction todo as [|check rest IH]; intros allGood.
  - cbn. rewrite andb_true_r. destruct allGood; repeat split; reflexivity.
  - cbn [checkEach]. rewrite run_mbind. unfold extend.
    destruct allGood.
    + destruct (run_checkCommand w (command check) (name check)
                  (installInstructions check)) as (Ho & Hc & Hf).
      rewrite Ho. cbn [out trace final]. rewrite Hf.
      destruct (IH (installed w (command check))) as (Ho' & Hc' & Hf').
      rewrite Ho', Hf'. unfold commands in *. rewrite omap_app, Hc, Hc'.
      cbn. destruct (installed w (command check)); repeat split; reflexivity.
    + cbn. destruct (IH false) as (Ho' & Hc' & Hf').
      rewrite Ho', Hf'. unfold commands in *. rewrite Hc'.
      repeat split; reflexivity.
Qed.

(** X28.  The loop of the TypeScript version stops asking at the first missing
    tool: over any list of checks, it starts [which] for the checks up to
    the first whose command is missing, that one included, and for none
    after it; it returns whether every command of the list is installed. *)
Theorem loop_stops_at_first_missing (w : World) (todo : list CommandCheck) :
  out (run (checkEach todo true) w)
  = Done (forallb (fun check => installed w (command check)) todo)
  /\ commands (trace (run (checkEach todo true) w))
     = map whichOf (upToMissing w todo).
Proof.
  destruct (run_checkEach w todo true) as (Ho & Hc & _).
  split; assumption.
Qed.

(** X29.  The two versions of the script.  The JavaScript version asks for all
    three tools, whatever the answers; the TypeScript version asks for the
    tools up to the first missing one.  Both return, and both end on the
    same line: the tools that can be used when [git], [gh] and [claude]
    are all installed, the warning otherwise. *)
Theorem versions_agree_on_verdict (w : World) :
  let verdict :=
    if installed w "git" && installed w "gh" && installed w "claude"
    then JS.nl +:+ "You can now use: ghc, ghp, ghpa, ghn, ghcp"
    else "⚠️  Some requirements are missing. Please install them before using gh-claude-tools." in
  out (run main w) = Done tt
  /\ out (run mainJs w) = Done tt
  /\ commands (trace (run mainJs w)) = ["which git"; "which gh"; "which claude"]
  /\ commands (trace (run main w)) = map whichOf (upToMissing w checks)
  /\ last (written (trace (run main w))) = Some (Log, verdict)
  /\ last (written (trace (run mainJs w))) = Some (Log, verdict).
Proof.
  cbn zeta. unfold main, mainJs, checks, checkEach, checkCommand, execAsync,
    report, console, trigger. cbn. unfold installed.
  repeat match goal with
         | |- context [proc w ?c noOptions] =>
             destruct (proc w c noOptions); cbn
         end;
    repeat split; reflexivity.
Qed.

End CheckSpec.
